(** * Pocker: hand evaluator, comparator and Monte Carlo equity simulator

    A shallow embedding of [doxy-poker.c].  C [int]s are integers in [Z]: the
    program computes card ranks, array indices and counters up to 10^6, far
    from the range of [int].  A [Card] array together with its size argument
    is a list; where the code indexes past the end of an array the array is
    a function from offsets to cells and the reads are recorded.  The deck is
    read and written through checked accessors that fail outside the array,
    and [rand()] is a stream of non-negative integers consumed through an
    explicit call counter. *)

From Stdlib Require Import ZArith Lia.
From Stdlib Require Ascii String.
From stdpp Require Import base numbers option list sorting.
Import Ascii.AsciiSyntax String.StringSyntax.

Delimit Scope string_scope with string.
Delimit Scope char_scope with char.

Local Open Scope Z_scope.

(** ** Constants and data ([#define]s and [struct]s of the source) *)

Definition NUM_CARDS : Z := 52.
Definition NUM_RANKS : Z := 13.
Definition NUM_SUITS : Z := 4.
Definition HAND_SIZE : Z := 2.
Definition MONTE_CARLO_SIMULATIONS : Z := 10000.

Record Card : Type := mkCard { rank : Z; suit : Z }.

Record HandEvaluation : Type := mkEval {
  combination_level : Z;
  highest_card : Z;
  second_highest_card : Z
}.

Definition set_level (e : HandEvaluation) (l : Z) : HandEvaluation :=
  mkEval l (highest_card e) (second_highest_card e).
Definition set_highest (e : HandEvaluation) (r : Z) : HandEvaluation :=
  mkEval (combination_level e) r (second_highest_card e).
Definition set_second (e : HandEvaluation) (r : Z) : HandEvaluation :=
  mkEval (combination_level e) (highest_card e) r.

#[global] Instance Card_eq_dec : EqDecision Card.
Proof. solve_decision. Defined.

(** A card of the 52-card domain. *)
Definition valid_card (c : Card) : Prop :=
  0 <= rank c < NUM_RANKS /\ 0 <= suit c < NUM_SUITS.

#[global] Instance valid_card_dec c : Decision (valid_card c).
Proof. unfold valid_card. apply _. Defined.

(** ** Control flow: a [for] loop whose body may [return] *)

Inductive flow (S R : Type) : Type :=
| Next (s : S)
| Return (r : R).
Arguments Next {S R} s.
Arguments Return {S R} r.

Fixpoint for_each {S R : Type} (body : S -> Z -> flow S R)
    (indices : list Z) (s : S) : flow S R :=
  match indices with
  | [] => Next s
  | i :: rest =>
      match body s i with
      | Next s' => for_each body rest s'
      | Return r => Return r
      end
  end.

(** ** evaluate_hand *)

(** [compare_cards]: the [qsort] comparator, highest rank first. *)
Definition compare_cards (a b : Card) : Z := rank b - rank a.

(** [qsort(all_cards, n, sizeof(Card), compare_cards)].  The C library leaves
    the order of equal-ranked cards open; [evaluate_hand] reads only
    [all_cards[0].rank] and the two histograms afterwards, which are the same
    for every order that [compare_cards] allows (lemma [classify_any_sort]
    below). *)
Fixpoint insert_card (c : Card) (sorted : list Card) : list Card :=
  match sorted with
  | [] => [c]
  | d :: rest =>
      if compare_cards c d <=? 0 then c :: sorted else d :: insert_card c rest
  end.

Definition qsort (cards : list Card) : list Card := foldr insert_card [] cards.

(** The histogram loop: [count[key(all_cards[i])]++] over a zeroed array. *)
Fixpoint tally (key : Card -> Z) (cards : list Card) (i : Z) : Z :=
  match cards with
  | [] => 0
  | c :: rest => (if key c =? i then 1 else 0) + tally key rest i
  end.

Definition rank_count : list Card -> Z -> Z := tally rank.
Definition suit_count : list Card -> Z -> Z := tally suit.

(** [all_cards[0]]; the array holds at least the [HAND_SIZE] hole cards. *)
Definition top_rank (all_cards : list Card) : Z :=
  match all_cards with
  | c :: _ => rank c
  | [] => -1
  end.

(** Body of the multiple-of-a-kind loop (source lines 157-172). *)
Definition kind_step (rc : Z -> Z) (st : bool * bool * HandEvaluation) (i : Z)
  : flow (bool * bool * HandEvaluation) HandEvaluation :=
  let '(has_three, has_pair, eval) := st in
  if rc i =? 4 then Return (set_highest (set_level eval 8) i)
  else if rc i =? 3 then Next (true, has_pair, set_highest eval i)
  else if rc i =? 2 then
    Next (has_three, true,
          if (second_highest_card eval =? -1) || (second_highest_card eval <? i)
          then set_second eval i else eval)
  else Next st.

(** Body of the straight loop (source lines 182-193). *)
Definition straight_step (rc : Z -> Z) (eval : HandEvaluation)
    (consecutive : Z) (i : Z) : flow Z HandEvaluation :=
  if 0 <? rc i then
    if 5 <=? consecutive + 1
    then Return (set_highest (set_level eval 4) (i + 4))
    else Next (consecutive + 1)
  else Next 0.

(** Body of the pair loop (source lines 196-206). *)
Definition pair_step (rc : Z -> Z) (st : Z * HandEvaluation) (i : Z)
  : Z * HandEvaluation :=
  let '(pairs, eval) := st in
  if rc i =? 2 then
    (pairs + 1,
     if highest_card eval <? i
     then set_highest (set_second eval (highest_card eval)) i
     else if second_highest_card eval <? i then set_second eval i
     else eval)
  else st.

(** The body of [evaluate_hand] from the histograms on (source lines
    139-216), on the sorted array. *)
Definition classify (all_cards : list Card) : HandEvaluation :=
  let rc := rank_count all_cards in
  let sc := suit_count all_cards in
  let eval := mkEval 0 (top_rank all_cards) (-1) in
  if existsb (fun i => 5 <=? sc i) (seqZ 0 NUM_SUITS) then set_level eval 6
  else
    match for_each (kind_step rc) (seqZ 0 NUM_RANKS) (false, false, eval) with
    | Return e => e
    | Next (has_three, has_pair, eval) =>
        if has_three && has_pair then set_level eval 7
        else if has_three then set_level eval 3
        else
          match for_each (straight_step rc eval)
                  (reverse (seqZ 0 NUM_RANKS)) 0 with
          | Return e => e
          | Next _ =>
              let '(pairs, eval) :=
                fold_left (pair_step rc) (seqZ 0 NUM_RANKS) (0, eval) in
              if 2 <=? pairs then set_level eval 2
              else if pairs =? 1 then set_level eval 1
              else set_level eval 0
          end
    end.

(** [all_cards] is the hole cards followed by the community cards, sorted. *)
Definition evaluate_hand (hand community_cards : list Card) : HandEvaluation :=
  classify (qsort (hand ++ community_cards)).

(** ** is_hand_better *)

(** A [Card *] argument as the callee sees it: the card at every offset.
    Offsets [0 .. n-1] are the n-cell array the caller passed; the other
    offsets are whatever lies next to it in memory. *)
Definition pointer : Type := Z -> Card.

Definition cells (p : pointer) (n : Z) : list Card := p <$> seqZ 0 n.

(** An n-cell array followed by (and preceded by) [stray] cells. *)
Definition array_of (l : list Card) (stray : Card) : pointer :=
  fun i => if i <? 0 then stray else nth (Z.to_nat i) l stray.

(** The array reads of [is_hand_better], in program order. *)
Inductive access : Type :=
| Hand1 (i : Z)
| Hand2 (i : Z)
| Community (i : Z).

Definition in_bounds (community_size : Z) (a : access) : bool :=
  match a with
  | Hand1 i | Hand2 i => (0 <=? i) && (i <? HAND_SIZE)
  | Community i => (0 <=? i) && (i <? community_size)
  end.

(** The reads of the two [evaluate_hand] calls. *)
Definition evaluate_reads (community_size : Z) : list access :=
  (Hand1 <$> seqZ 0 HAND_SIZE) ++ (Community <$> seqZ 0 community_size) ++
  (Hand2 <$> seqZ 0 HAND_SIZE) ++ (Community <$> seqZ 0 community_size).

(** Body of the positional fallback loop (source lines 252-261); the state is
    the list of reads so far. *)
Definition positional_step (hand1 hand2 community_cards : pointer)
    (log : list access) (i : Z) : flow (list access) (bool * list access) :=
  let log := log ++ [Community i] in
  if rank (community_cards i) =? -1 then Next log
  else
    let log := log ++ [Hand1 i; Hand2 i] in
    if rank (hand1 i) >? rank (hand2 i) then Return (true, log)
    else if rank (hand1 i) <? rank (hand2 i) then Return (false, log)
    else Next log.

Definition is_hand_better (hand1 hand2 community_cards : pointer)
    (community_size : Z) : bool * list access :=
  let community := cells community_cards community_size in
  let eval1 := evaluate_hand (cells hand1 HAND_SIZE) community in
  let eval2 := evaluate_hand (cells hand2 HAND_SIZE) community in
  let log := evaluate_reads community_size in
  if combination_level eval1 >? combination_level eval2 then (true, log)
  else if combination_level eval1 <? combination_level eval2 then (false, log)
  else if highest_card eval1 >? highest_card eval2 then (true, log)
  else if highest_card eval1 <? highest_card eval2 then (false, log)
  else if negb (second_highest_card eval1 =? -1)
          && negb (second_highest_card eval2 =? -1) then
    if second_highest_card eval1 >? second_highest_card eval2 then (true, log)
    else if second_highest_card eval1 <? second_highest_card eval2
    then (false, log)
    else (false, log)
  else if negb (second_highest_card eval1 =? -1) then (true, log)
  else if negb (second_highest_card eval2 =? -1) then (false, log)
  else
    match for_each (positional_step hand1 hand2 community_cards)
            (reverse (seqZ 0 (HAND_SIZE + community_size))) log with
    | Return r => r
    | Next log => (false, log)
    end.

(** The reads a run of the fallback loop ends with. *)
Definition result_log (r : flow (list access) (bool * list access))
  : list access :=
  match r with
  | Next log => log
  | Return (_, log) => log
  end.

(** ** find_winning_opponent *)

(** The three-level test of the loop body: the opponent's evaluation is
    strictly greater than the player's. *)
Definition beats (opponent_eval player_eval : HandEvaluation) : bool :=
  if combination_level opponent_eval >? combination_level player_eval then true
  else if combination_level opponent_eval =? combination_level player_eval then
    if highest_card opponent_eval >? highest_card player_eval then true
    else (highest_card opponent_eval =? highest_card player_eval)
         && (second_highest_card opponent_eval >? second_highest_card player_eval)
  else false.

(** The lexicographic order on (level, highest card, second highest card). *)
Definition eval_gt (a b : HandEvaluation) : Prop :=
  combination_level a > combination_level b \/
  combination_level a = combination_level b /\
  (highest_card a > highest_card b \/
   highest_card a = highest_card b /\
   second_highest_card a > second_highest_card b).

(** The loop over the opponents from index [i] on; the state is
    [(player_wins, winning_opponent_index)]. *)
Fixpoint scan_opponents (player_eval : HandEvaluation)
    (community_cards : list Card) (opponent_hands : list (list Card))
    (i : Z) (st : bool * Z) : bool * Z :=
  match opponent_hands with
  | [] => st
  | hand :: rest =>
      let opponent_eval := evaluate_hand hand community_cards in
      scan_opponents player_eval community_cards rest (i + 1)
        (if beats opponent_eval player_eval then (false, i) else st)
  end.

Definition find_winning_opponent (player_hand : list Card)
    (opponent_hands : list (list Card)) (community_cards : list Card) : Z :=
  let player_eval := evaluate_hand player_hand community_cards in
  let '(player_wins, winning_opponent_index) :=
    scan_opponents player_eval community_cards opponent_hands 0 (true, -1) in
  if player_wins then -1 else winning_opponent_index.

(** ** Deck *)

(** [a[i]] and [a[i] = x] on an array of [length a] cells; [None] is an access
    outside the array. *)
Definition read {A : Type} (a : list A) (i : Z) : option A :=
  if 0 <=? i then a !! Z.to_nat i else None.

Definition write {A : Type} (a : list A) (i : Z) (x : A) : option (list A) :=
  if (0 <=? i) && (i <? Z.of_nat (length a))
  then Some (<[Z.to_nat i := x]> a) else None.

(** [initialize_deck] fills the 52 cells in index order. *)
Definition initialize_deck : list Card :=
  flat_map (fun i => (fun j => mkCard i j) <$> seqZ 0 NUM_SUITS)
           (seqZ 0 NUM_RANKS).

(** [deal_cards]: [size] cells copied from [deck[*current_card]] on into
    [hand], the cursor advanced past each; the result is the hand and the
    new [*current_card]. *)
Fixpoint deal_from (deck : list Card) (current_card : Z) (size : nat)
  : option (list Card * Z) :=
  match size with
  | O => Some ([], current_card)
  | S n =>
      c ← read deck current_card;
      '(hand, current_card) ← deal_from deck (current_card + 1) n;
      Some (c :: hand, current_card)
  end.

Definition deal_cards (deck : list Card) (current_card : Z) (size : Z)
  : option (list Card * Z) :=
  deal_from deck current_card (Z.to_nat size).

Section Simulator.

(** [rand n] is what the n-th call of [rand()] returns. *)
Variable rand : nat -> Z.

(** [shuffle_deck]: [for (i = NUM_CARDS - 1; i > 0; i--)], with [calls] the
    number of [rand()] calls made so far.  C's [%] is [Z.rem]. *)
Fixpoint shuffle_from (i : nat) (deck : list Card) (calls : nat)
  : option (list Card * nat) :=
  match i with
  | O => Some (deck, calls)
  | S i' =>
      let j := Z.rem (rand calls) (Z.of_nat i + 1) in
      temp ← read deck (Z.of_nat i);
      dj ← read deck j;
      deck ← write deck (Z.of_nat i) dj;
      deck ← write deck j temp;
      shuffle_from i' deck (S calls)
  end.

Definition shuffle_deck (deck : list Card) (calls : nat)
  : option (list Card * nat) :=
  shuffle_from (Z.to_nat (NUM_CARDS - 1)) deck calls.

(** [deck[c.rank * NUM_SUITS + c.suit].rank = -1]. *)
Definition mark (deck : list Card) (c : Card) : option (list Card) :=
  let index := rank c * NUM_SUITS + suit c in
  old ← read deck index;
  write deck index (mkCard (-1) (suit old)).

Fixpoint mark_all (cards : list Card) (deck : list Card)
  : option (list Card) :=
  match cards with
  | [] => Some deck
  | c :: rest => deck ← mark deck c; mark_all rest deck
  end.

(** The [do ... while (rank == -1)] loop over the cells from [current_card]
    on: it stops at the first card whose rank is not -1, and runs off the
    array ([None]) when there is none. *)
Fixpoint next_available (unread : list Card) (current_card : Z)
  : option (Card * Z) :=
  match unread with
  | [] => None
  | c :: rest =>
      if rank c =? -1 then next_available rest (current_card + 1)
      else Some (c, current_card + 1)
  end.

Definition deal_one (deck : list Card) (current_card : Z) : option (Card * Z) :=
  if 0 <=? current_card
  then next_available (drop (Z.to_nat current_card) deck) current_card
  else None.

(** The dealing loop for [k < num_players - 1], [j < HAND_SIZE]. *)
Fixpoint deal_opponents (num_opponents : nat) (deck : list Card)
    (current_card : Z) : option (list (list Card) * Z) :=
  match num_opponents with
  | O => Some ([], current_card)
  | S n =>
      '(c0, current_card) ← deal_one deck current_card;
      '(c1, current_card) ← deal_one deck current_card;
      '(hands, current_card) ← deal_opponents n deck current_card;
      Some ([c0; c1] :: hands, current_card)
  end.

(** One iteration of the simulation loop up to the call of
    [find_winning_opponent]: the opponent hands dealt, the final
    [current_card] and the number of [rand()] calls made. *)
Definition trial (player_hand community_cards : list Card) (num_players : Z)
    (calls : nat) : option (list (list Card) * Z * nat) :=
  '(deck, calls) ← shuffle_deck initialize_deck calls;
  deck ← mark_all player_hand deck;
  deck ← mark_all community_cards deck;
  '(opponent_hands, current_card) ←
    deal_opponents (Z.to_nat (num_players - 1)) deck 0;
  Some (opponent_hands, current_card, calls).

(** The simulation loop with [n] iterations left. *)
Fixpoint simulate (player_hand community_cards : list Card) (num_players : Z)
    (n : nat) (wins losses : Z) (calls : nat) : option (Z * Z * nat) :=
  match n with
  | O => Some (wins, losses, calls)
  | S n' =>
      '(opponent_hands, _, calls) ←
        trial player_hand community_cards num_players calls;
      if find_winning_opponent player_hand opponent_hands community_cards =? -1
      then simulate player_hand community_cards num_players n'
             (wins + 1) losses calls
      else simulate player_hand community_cards num_players n'
             wins (losses + 1) calls
  end.

(** The counters [(wins, losses, ties)] after the loop. *)
Definition counters (player_hand community_cards : list Card)
    (num_players : Z) (calls : nat) : option (Z * Z * Z) :=
  '(wins, losses, _) ←
    simulate player_hand community_cards num_players
      (Z.to_nat MONTE_CARLO_SIMULATIONS) 0 0 calls;
  Some (wins, losses, 0).

(** [calculate_win_probability]; [None] is an access outside an array or a
    division by zero.  C's [/] is [Z.quot]. *)
Definition calculate_win_probability (player_hand community_cards : list Card)
    (num_players : Z) (calls : nat) : option Z :=
  '(wins, losses, ties) ←
    counters player_hand community_cards num_players calls;
  if wins + losses + ties =? 0 then None
  else Some (Z.quot (wins * 100) (wins + losses + ties)).

End Simulator.

(** ** print_card *)

Definition ranks : list String.string :=
  ["2"%string; "3"%string; "4"%string; "5"%string; "6"%string; "7"%string;
   "8"%string; "9"%string; "10"%string; "J"%string; "Q"%string; "K"%string;
   "A"%string].

Definition suits : list String.string :=
  ["♥"%string; "♦"%string; "♣"%string; "♠"%string].

(** [printf("[ %s%s ]", ranks[card.rank], suits[card.suit])]: the text
    printed; [None] is a read outside one of the two tables. *)
Definition print_card (card : Card) : option String.string :=
  r ← read ranks (rank card);
  s ← read suits (suit card);
  Some (String.append "[ " (String.append r (String.append s " ]"))).

(** ** clear_buffer

    Standard input is the list of characters still to be read; [getchar]
    yields the next one, or [EOF] ([None]) at the end. *)

Definition newline : Ascii.ascii := "010"%char.

(** [while ((c = getchar()) != '\n' && c != EOF);] and [return c]: the last
    value read and the input left. *)
Fixpoint clear_buffer (stdin : list Ascii.ascii)
  : option Ascii.ascii * list Ascii.ascii :=
  match stdin with
  | [] => (None, [])
  | c :: rest =>
      if Ascii.eqb c newline then (Some c, rest) else clear_buffer rest
  end.

(** ** main

    [main] starts from the result of [scanf("%d", &num_players)] ([None]
    when no integer could be read) and the input that follows the integer.
    Standard output is the sequence of what is printed, each entry standing
    for one group of [printf] calls and carrying the values printed. *)

Definition FLOP_SIZE : Z := 3.
Definition TURN_RIVER_SIZE : Z := 1.

Inductive output : Type :=
| AskPlayers
| InvalidPlayers
| YourHand (hand : list Card)
| PreflopProbability (opponents : Z) (percent : Z)
| AskAction
| Folded
| Flop (community : list Card)
| FlopProbability (percent : Z)
| Turn (community : list Card)
| TurnProbability (percent : Z)
| River (community : list Card)
| FinalProbability (percent : Z)
| PlayerWins
| BotWins (number : Z).

(** The white space a [scanf] directive skips (the C locale's [isspace]). *)
Definition is_space (c : Ascii.ascii) : bool :=
  let code := Ascii.N_of_ascii c in
  ((code =? 32) || ((9 <=? code) && (code <=? 13)))%N.

(** The conversion [" %c"]: white space is skipped and the next character
    read; [None] when the input ends first. *)
Fixpoint scan_char (stdin : list Ascii.ascii)
  : option (Ascii.ascii * list Ascii.ascii) :=
  match stdin with
  | [] => None
  | c :: rest => if is_space c then scan_char rest else Some (c, rest)
  end.

(** [scanf(" %c", &action)] and the test [action == 'F' || action == 'f'].
    When the input ends [scanf] leaves [action] as it was; [action] holds no
    value ([None]) until a character has been read, and the outcome of
    testing it then is not fixed by the program ([None]). *)
Definition ask_action (action : option Ascii.ascii) (stdin : list Ascii.ascii)
  : option (bool * option Ascii.ascii * list Ascii.ascii) :=
  let '(action, stdin) :=
    match scan_char stdin with
    | None => (action, [])
    | Some (a, rest) => (Some a, rest)
    end in
  a ← action;
  Some (Ascii.eqb a "F"%char || Ascii.eqb a "f"%char, action, stdin).

(** [for (i = 0; i < num_players; i++) deal_cards(deck, &current_card,
    player_hands[i], HAND_SIZE)]. *)
Fixpoint deal_players (deck : list Card) (current_card : Z) (num_players : nat)
  : option (list (list Card) * Z) :=
  match num_players with
  | O => Some ([], current_card)
  | S n =>
      '(hand, current_card) ← deal_cards deck current_card HAND_SIZE;
      '(hands, current_card) ← deal_players deck current_card n;
      Some (hand :: hands, current_card)
  end.

Section Main.

Variable rand : nat -> Z.

(** A call of [calculate_win_probability], with the number of [rand()] calls
    made when it returns. *)
Definition win_probability (player_hand community_cards : list Card)
    (num_players : Z) (calls : nat) : option (Z * nat) :=
  percent ← calculate_win_probability rand player_hand community_cards
              num_players calls;
  '(_, _, calls) ← simulate rand player_hand community_cards num_players
                     (Z.to_nat MONTE_CARLO_SIMULATIONS) 0 0 calls;
  Some (percent, calls).

(** [main]: the exit status and what was printed; [None] is a run whose
    behaviour the program does not fix (an access outside an array, a
    division by zero, a test of [action] before any character was read). *)
Definition main (players_read : option Z) (stdin : list Ascii.ascii)
  : option (Z * list output) :=
  let out := [AskPlayers] in
  match players_read with
  | None => Some (1, out ++ [InvalidPlayers])
  | Some num_players =>
      if (num_players <? 2) || (num_players >? 6)
      then Some (1, out ++ [InvalidPlayers])
      else
        '(deck, calls) ← shuffle_deck rand initialize_deck 0;
        '(player_hands, current_card) ←
          deal_players deck 0 (Z.to_nat num_players);
        player ← player_hands !! 0%nat;
        _ ← mapM print_card player;
        let out := out ++ [YourHand player] in
        '(percent, calls) ← win_probability player [] num_players calls;
        let out :=
          out ++ [PreflopProbability (num_players - 1) percent; AskAction] in
        '(folds, action, stdin) ← ask_action None stdin;
        if (folds : bool) then Some (0, out ++ [Folded])
        else
          let stdin := (clear_buffer stdin).2 in
          '(flop, current_card) ← deal_cards deck current_card FLOP_SIZE;
          _ ← mapM print_card flop;
          let out := out ++ [Flop flop; AskAction] in
          '(folds, action, stdin) ← ask_action action stdin;
          if (folds : bool) then Some (0, out ++ [Folded])
          else
            let stdin := (clear_buffer stdin).2 in
            '(percent, calls) ← win_probability player flop num_players calls;
            let out := out ++ [FlopProbability percent; AskAction] in
            '(folds, action, stdin) ← ask_action action stdin;
            if (folds : bool) then Some (0, out ++ [Folded])
            else
              let stdin := (clear_buffer stdin).2 in
              '(turn, current_card) ←
                deal_cards deck current_card TURN_RIVER_SIZE;
              let community := flop ++ turn in
              _ ← mapM print_card community;
              let out := out ++ [Turn community] in
              '(percent, calls) ←
                win_probability player community num_players calls;
              let out := out ++ [TurnProbability percent; AskAction] in
              '(folds, action, stdin) ← ask_action action stdin;
              if (folds : bool) then Some (0, out ++ [Folded])
              else
                let stdin := (clear_buffer stdin).2 in
                '(river, current_card) ←
                  deal_cards deck current_card TURN_RIVER_SIZE;
                let community := community ++ river in
                _ ← mapM print_card community;
                let out := out ++ [River community] in
                '(percent, calls) ←
                  win_probability player community num_players calls;
                let out := out ++ [FinalProbability percent] in
                let winning_opponent_index :=
                  find_winning_opponent player (drop 1 player_hands)
                    community in
                Some (0, out ++ [if winning_opponent_index =? -1
                                 then PlayerWins
                                 else BotWins (winning_opponent_index + 2)])
  end.

End Main.

(** ** Input domains of the claims *)

(** The highest rank among the cards, [-1] when there is none. *)
Fixpoint highest_rank (cards : list Card) : Z :=
  match cards with
  | [] => -1
  | c :: rest =>
      match rest with
      | [] => rank c
      | _ :: _ => Z.max (rank c) (highest_rank rest)
      end
  end.

(** The highest rank among the cards of suit [s], [-1] when there is none. *)
Definition highest_of_suit (cards : list Card) (s : Z) : Z :=
  highest_rank (List.filter (fun c => suit c =? s) cards).

(** Two hole cards and at most five community cards, all of the 52-card
    domain and pairwise distinct. *)
Definition valid_input (hand community_cards : list Card) : Prop :=
  length hand = 2%nat /\ (length community_cards <= 5)%nat /\
  Forall valid_card (hand ++ community_cards) /\
  NoDup (hand ++ community_cards).

#[global] Instance valid_input_dec hand community_cards :
  Decision (valid_input hand community_cards).
Proof. unfold valid_input. apply _. Defined.

(** ** Vocabulary of the simulator's invariants *)

(** A deck cell whose rank was not overwritten with -1. *)
Definition unmarked (c : Card) : Prop := rank c <> -1.

#[global] Instance unmarked_dec c : Decision (unmarked c).
Proof. unfold unmarked. apply _. Defined.

(** The number of cells whose rank is -1. *)
Definition marked (deck : list Card) : Z := rank_count deck (-1).

(** The cursor after [dealt] cards: the cells before it are the cards dealt
    and the marked cells skipped. *)
Definition cursor_at (dealt : Z) (deck : list Card) (current_card : Z) : Prop :=
  exists seen unread,
    deck = seen ++ unread /\ current_card = Z.of_nat (length seen) /\
    Z.of_nat (length seen) = dealt + marked seen.

(** ** The hand categories, read declaratively

    [rc] and [sc] are the rank and suit histograms, [top] the highest rank
    among the cards. *)

(** No rank below [n] occurs exactly [c] times. *)
Definition none_with (rc : Z -> Z) (c n : Z) : Prop :=
  forall r, 0 <= r < n -> rc r <> c.

(** [t] is the highest rank below [n] that occurs exactly [c] times. *)
Definition is_max_with (rc : Z -> Z) (c n t : Z) : Prop :=
  0 <= t < n /\ rc t = c /\ forall r, t < r < n -> rc r <> c.

(** The highest paired rank below [n], or -1 when there is none. *)
Definition best_pair (rc : Z -> Z) (n s : Z) : Prop :=
  (none_with rc 2 n /\ s = -1) \/ is_max_with rc 2 n s.

Definition no_flush (sc : Z -> Z) : Prop :=
  forall s, 0 <= s < NUM_SUITS -> sc s < 5.

(** The five ranks [i .. i + 4] are all present. *)
Definition run_at (rc : Z -> Z) (i : Z) : Prop :=
  forall j, i <= j < i + 5 -> 0 < rc j.

(** No five consecutive ranks among 2 .. A are all present (the ace counts
    high only). *)
Definition no_run (rc : Z -> Z) : Prop :=
  forall i, 0 <= i <= NUM_RANKS - 5 -> ~ run_at rc i.

(** [i .. i + 4] is the highest run of five present ranks. *)
Definition highest_run (rc : Z -> Z) (i : Z) : Prop :=
  0 <= i <= NUM_RANKS - 5 /\ run_at rc i /\
  forall i', i < i' <= NUM_RANKS - 5 -> ~ run_at rc i'.

(** The number of ranks that occur exactly twice. *)
Definition pairs_of (rc : Z -> Z) : Z :=
  Z.of_nat (length (List.filter (fun r => rc r =? 2) (seqZ 0 NUM_RANKS))).

(** The evaluation each category yields. *)
Inductive hand_case (rc sc : Z -> Z) (top : Z) : HandEvaluation -> Prop :=
| case_flush s :
    0 <= s < NUM_SUITS -> 5 <= sc s ->
    hand_case rc sc top (mkEval 6 top (-1))
| case_four q s :
    no_flush sc ->
    0 <= q < NUM_RANKS -> rc q = 4 -> none_with rc 4 q -> best_pair rc q s ->
    hand_case rc sc top (mkEval 8 q s)
| case_full_house t p :
    no_flush sc -> none_with rc 4 NUM_RANKS ->
    is_max_with rc 3 NUM_RANKS t -> is_max_with rc 2 NUM_RANKS p ->
    hand_case rc sc top (mkEval 7 t p)
| case_three t :
    no_flush sc -> none_with rc 4 NUM_RANKS ->
    is_max_with rc 3 NUM_RANKS t -> none_with rc 2 NUM_RANKS ->
    hand_case rc sc top (mkEval 3 t (-1))
| case_straight i s :
    no_flush sc -> none_with rc 4 NUM_RANKS -> none_with rc 3 NUM_RANKS ->
    highest_run rc i -> best_pair rc NUM_RANKS s ->
    hand_case rc sc top (mkEval 4 (i + 4) s)
| case_pairs p :
    no_flush sc -> none_with rc 4 NUM_RANKS -> none_with rc 3 NUM_RANKS ->
    no_run rc -> is_max_with rc 2 NUM_RANKS p ->
    hand_case rc sc top (mkEval (if 2 <=? pairs_of rc then 2 else 1) top p)
| case_high :
    no_flush sc -> none_with rc 4 NUM_RANKS -> none_with rc 3 NUM_RANKS ->
    no_run rc -> none_with rc 2 NUM_RANKS ->
    hand_case rc sc top (mkEval 0 top (-1)).

(** * Properties of [evaluate_hand] *)

Section Histograms.

Context (key : Card -> Z).

Lemma tally_nonneg cards i : 0 <= tally key cards i.
Proof. induction cards as [|c rest IH]; simpl; [lia|]. case_match; lia. Qed.

Lemma tally_le_length cards i : tally key cards i <= Z.of_nat (length cards).
Proof. induction cards as [|c rest IH]; simpl; [lia|]. case_match; lia. Qed.

Lemma tally_pos_elem cards i :
  0 < tally key cards i -> exists c, c ∈ cards /\ key c = i.
Proof.
  induction cards as [|c rest IH]; simpl; [lia|].
  destruct (Z.eqb_spec (key c) i) as [Heq|Hne]; intros Hpos.
  - exists c. split; [left | exact Heq].
  - destruct IH as (d & Hd & Hk); [lia|]. exists d. split; [by right | exact Hk].
Qed.

Lemma tally_insert_card c sorted i :
  tally key (insert_card c sorted) i = tally key (c :: sorted) i.
Proof.
  induction sorted as [|d rest IH]; [reflexivity|].
  simpl. case_match; simpl; [reflexivity|].
  simpl in IH. rewrite IH. lia.
Qed.

Lemma tally_qsort cards i : tally key (qsort cards) i = tally key cards i.
Proof.
  induction cards as [|c rest IH]; [reflexivity|].
  change (qsort (c :: rest)) with (insert_card c (qsort rest)).
  rewrite tally_insert_card. simpl. by rewrite IH.
Qed.

End Histograms.

Lemma top_rank_insert_card c sorted :
  top_rank (insert_card c sorted) =
  match sorted with [] => rank c | _ :: _ => Z.max (rank c) (top_rank sorted) end.
Proof.
  destruct sorted as [|d rest]; [reflexivity|].
  simpl. unfold compare_cards.
  destruct (Z.leb_spec (rank d - rank c) 0); simpl; lia.
Qed.

Lemma insert_card_not_nil c sorted : insert_card c sorted <> [].
Proof. destruct sorted; simpl; [|case_match]; discriminate. Qed.

(** After [qsort], [all_cards[0].rank] is the highest rank overall. *)
Lemma top_rank_qsort cards : top_rank (qsort cards) = highest_rank cards.
Proof.
  induction cards as [|c rest IH]; [reflexivity|].
  change (qsort (c :: rest)) with (insert_card c (qsort rest)).
  rewrite top_rank_insert_card. destruct rest as [|d rest']; [reflexivity|].
  change (qsort (d :: rest')) with (insert_card d (qsort rest')) in *.
  pose proof (insert_card_not_nil d (qsort rest')) as Hne.
  destruct (insert_card d (qsort rest')) eqn:E; [done|].
  rewrite IH. reflexivity.
Qed.

(** ** Order of the cards *)

Lemma tally_perm key cards cards' i :
  cards ≡ₚ cards' -> tally key cards i = tally key cards' i.
Proof.
  induction 1 as [|c l l' _ IH|c d l|l1 l2 l3 _ IH1 _ IH2]; simpl;
    [reflexivity | rewrite IH; reflexivity | lia | congruence].
Qed.

Lemma highest_rank_ge cards c : c ∈ cards -> rank c <= highest_rank cards.
Proof.
  induction cards as [|d rest IH]; intros Hc; [by apply elem_of_nil in Hc|].
  apply elem_of_cons in Hc as [->|Hc].
  - destruct rest; simpl; lia.
  - specialize (IH Hc). destruct rest as [|e rest]; [by apply elem_of_nil in Hc|].
    change (highest_rank (d :: e :: rest))
      with (Z.max (rank d) (highest_rank (e :: rest))). lia.
Qed.

Lemma highest_rank_elem cards :
  cards <> [] -> exists c, c ∈ cards /\ rank c = highest_rank cards.
Proof.
  induction cards as [|d rest IH]; intros Hne; [done|].
  destruct rest as [|e rest].
  - exists d. split; [left | reflexivity].
  - destruct IH as (c & Hc & Hrank); [done|].
    change (highest_rank (d :: e :: rest))
      with (Z.max (rank d) (highest_rank (e :: rest))).
    destruct (Z.max_spec (rank d) (highest_rank (e :: rest))) as [[_ ->]|[_ ->]].
    + exists c. split; [by right | exact Hrank].
    + exists d. split; [left | reflexivity].
Qed.

Lemma highest_rank_incl cards cards' :
  cards <> [] -> (forall c, c ∈ cards -> c ∈ cards') ->
  highest_rank cards <= highest_rank cards'.
Proof.
  intros Hne Hincl. destruct (highest_rank_elem cards Hne) as (x & Hx & <-).
  apply highest_rank_ge, Hincl, Hx.
Qed.

Lemma highest_rank_perm cards cards' :
  cards ≡ₚ cards' -> highest_rank cards = highest_rank cards'.
Proof.
  intros Hperm.
  destruct (decide (cards = [])) as [->|Hne].
  { apply Permutation_nil_l in Hperm. by subst. }
  assert (cards' <> []) as Hne'.
  { intros ->. by apply Permutation_nil_r in Hperm. }
  apply Z.le_antisymm; apply highest_rank_incl; try assumption;
    intros c Hc; [by rewrite <- Hperm | by rewrite Hperm].
Qed.

Lemma for_each_ext {S R : Type} (body body' : S -> Z -> flow S R) indices s :
  (forall s i, body s i = body' s i) ->
  for_each body indices s = for_each body' indices s.
Proof.
  intros Hbody. revert s. induction indices as [|i rest IH]; intros s;
    [reflexivity|].
  simpl. rewrite Hbody. destruct (body' s i); [apply IH | reflexivity].
Qed.

Lemma fold_left_pointwise {S : Type} (f f' : S -> Z -> S) indices s :
  (forall s i, f s i = f' s i) -> fold_left f indices s = fold_left f' indices s.
Proof.
  intros Hf. revert s. induction indices as [|i rest IH]; intros s;
    [reflexivity|].
  simpl. rewrite Hf. apply IH.
Qed.

Lemma existsb_pointwise (p p' : Z -> bool) indices :
  (forall i, p i = p' i) -> existsb p indices = existsb p' indices.
Proof.
  intros Hp. induction indices as [|i rest IH]; [reflexivity|].
  simpl. by rewrite Hp, IH.
Qed.

(** [classify] depends on its array only through the first rank and the two
    histograms. *)
Lemma classify_ext cards cards' :
  top_rank cards = top_rank cards' ->
  (forall i, rank_count cards i = rank_count cards' i) ->
  (forall i, suit_count cards i = suit_count cards' i) ->
  classify cards = classify cards'.
Proof.
  intros Htop Hrank Hsuit. unfold classify. cbv zeta. rewrite Htop.
  rewrite (existsb_pointwise _ (fun i => 5 <=? suit_count cards' i))
    by (intros i; by rewrite Hsuit).
  destruct (existsb _ _); [reflexivity|].
  rewrite (for_each_ext _ (kind_step (rank_count cards')))
    by (intros [[? ?] ?] i; unfold kind_step; by rewrite Hrank).
  destruct (for_each _ _ _) as [[[has_three has_pair] eval]|e]; [|reflexivity].
  destruct (has_three && has_pair); [reflexivity|].
  destruct has_three; [reflexivity|].
  rewrite (for_each_ext _ (straight_step (rank_count cards') eval))
    by (intros k i; unfold straight_step; by rewrite Hrank).
  destruct (for_each _ _ _) as [k|e]; [|reflexivity].
  rewrite (fold_left_pointwise _ (pair_step (rank_count cards')))
    by (intros [? ?] i; unfold pair_step; by rewrite Hrank).
  reflexivity.
Qed.

Lemma top_rank_sorted sorted :
  StronglySorted (fun a b => compare_cards a b <= 0) sorted ->
  top_rank sorted = highest_rank sorted.
Proof.
  intros Hsorted. destruct sorted as [|x rest]; [reflexivity|].
  apply StronglySorted_inv in Hsorted as [_ Hrest].
  rewrite Forall_forall in Hrest. simpl top_rank.
  apply Z.le_antisymm; [apply highest_rank_ge; left|].
  destruct (highest_rank_elem (x :: rest)) as (c & Hc & <-); [done|].
  apply elem_of_cons in Hc as [->|Hc]; [lia|].
  specialize (Hrest c Hc). unfold compare_cards in Hrest. lia.
Qed.

Lemma qsort_perm cards : qsort cards ≡ₚ cards.
Proof.
  induction cards as [|c rest IH]; [reflexivity|].
  change (qsort (c :: rest)) with (insert_card c (qsort rest)).
  rewrite <- IH at 2. generalize (qsort rest). clear.
  intros sorted. induction sorted as [|d sorted IH]; [reflexivity|].
  simpl. destruct (compare_cards c d <=? 0); [reflexivity|].
  rewrite IH. apply Permutation_swap.
Qed.

(** Whatever order the library's [qsort] leaves equal-ranked cards in,
    [classify] returns what it returns on the order modelled here. *)
Lemma classify_any_sort sorted cards :
  sorted ≡ₚ cards ->
  StronglySorted (fun a b => compare_cards a b <= 0) sorted ->
  classify sorted = classify (qsort cards).
Proof.
  intros Hperm Hsorted. apply classify_ext.
  - rewrite top_rank_sorted, top_rank_qsort by assumption.
    by apply highest_rank_perm.
  - intros i. unfold rank_count. rewrite tally_qsort. by apply tally_perm.
  - intros i. unfold suit_count. rewrite tally_qsort. by apply tally_perm.
Qed.

(** X4.  Evaluator determinism: the evaluation does not depend on the order
    of the cards, nor on which of them are hole cards. *)
Theorem evaluate_hand_perm hand community_cards hand' community_cards' :
  hand ++ community_cards ≡ₚ hand' ++ community_cards' ->
  evaluate_hand hand community_cards = evaluate_hand hand' community_cards'.
Proof.
  intros Hperm. unfold evaluate_hand. apply classify_ext.
  - rewrite !top_rank_qsort. by apply highest_rank_perm.
  - intros i. unfold rank_count. rewrite !tally_qsort. by apply tally_perm.
  - intros i. unfold suit_count. rewrite !tally_qsort. by apply tally_perm.
Qed.

Lemma evaluate_hand_perm_witness :
  evaluate_hand [mkCard 11 2; mkCard 0 1] [mkCard 0 0]
  = evaluate_hand [mkCard 0 0; mkCard 11 2] [mkCard 0 1].
Proof.
  apply evaluate_hand_perm. simpl. symmetry.
  exact (Permutation_cons_append [mkCard 11 2; mkCard 0 1] (mkCard 0 0)).
Defined.

(** ** The spec's concrete scenarios

    Ranks 0-12 stand for 2-A and suits 0-3 for hearts, diamonds, clubs and
    spades. *)

(** 7c 7d with 7s 7h 2c: four sevens. *)
Example scenario_four_sevens :
  evaluate_hand [mkCard 5 2; mkCard 5 1] [mkCard 5 3; mkCard 5 0; mkCard 0 2]
  = mkEval 8 5 (-1).
Proof. vm_compute. reflexivity. Qed.

(** As Ks with Qs Js 10s 2h 3d: a flush, the straight flush is not told
    apart. *)
Example scenario_spade_flush :
  evaluate_hand [mkCard 12 3; mkCard 11 3]
    [mkCard 10 3; mkCard 9 3; mkCard 8 3; mkCard 0 0; mkCard 1 1]
  = mkEval 6 12 (-1).
Proof. vm_compute. reflexivity. Qed.

(** Kc Kd against Ac Ad on 2s 5h 9d Jc 3s: the opponent (index 0) wins. *)
Example scenario_aces_beat_kings :
  find_winning_opponent [mkCard 11 2; mkCard 11 1]
    [[mkCard 12 2; mkCard 12 1]]
    [mkCard 0 3; mkCard 3 0; mkCard 7 1; mkCard 9 2; mkCard 1 3]
  = 0.
Proof. vm_compute. reflexivity. Qed.

(** ** The loops of [evaluate_hand] *)

Section Scans.

Context (rc : Z -> Z).

(** The multiple-of-a-kind loop returns early only at a rank of count 4, with
    level 8 and that rank. *)
Lemma kind_scan_return indices st e :
  for_each (kind_step rc) indices st = Return e ->
  combination_level e = 8 /\ exists i, i ∈ indices /\ rc i = 4 /\ highest_card e = i.
Proof.
  revert st. induction indices as [|i rest IH]; intros st H; [discriminate|].
  simpl in H. destruct st as [[has_three has_pair] eval].
  unfold kind_step in H at 1.
  destruct (Z.eqb_spec (rc i) 4) as [H4|H4].
  - inversion H; subst e; clear H. split; [reflexivity|].
    exists i. split; [left | split; [exact H4 | reflexivity]].
  - assert (exists st', for_each (kind_step rc) rest st' = Return e)
      as [st' Hst'].
    { destruct (rc i =? 3); [eauto|]. destruct (rc i =? 2); eauto. }
    destruct (IH _ Hst') as (Hl & j & Hj & Hc & Hh).
    split; [exact Hl|]. exists j. split; [by right | split; [exact Hc | exact Hh]].
Qed.

(** It does return at the rank of count 4 when that rank is the only one. *)
Lemma kind_scan_quad r indices st :
  rc r = 4 -> r ∈ indices -> (forall i, i ∈ indices -> rc i = 4 -> i = r) ->
  exists e, for_each (kind_step rc) indices st = Return e /\
            combination_level e = 8 /\ highest_card e = r.
Proof.
  intros Hr. revert st.
  induction indices as [|i rest IH]; intros st Hin Huniq.
  - by apply elem_of_nil in Hin.
  - simpl. destruct st as [[has_three has_pair] eval]. unfold kind_step at 1.
    destruct (Z.eqb_spec (rc i) 4) as [H4|H4].
    + assert (i = r) as -> by (apply Huniq; [left | exact H4]).
      eexists. split; [reflexivity|]. split; reflexivity.
    + assert (r ∈ rest) as Hrest.
      { apply elem_of_cons in Hin as [->|Hin]; [contradiction | exact Hin]. }
      assert (forall j, j ∈ rest -> rc j = 4 -> j = r) as Hu
        by (intros j Hj; apply Huniq; by right).
      destruct (rc i =? 3); [by apply IH|]. destruct (rc i =? 2); by apply IH.
Qed.

(** The level field stays 0 while the multiple-of-a-kind loop runs on. *)
Lemma kind_scan_next indices st has_three has_pair eval :
  for_each (kind_step rc) indices st = Next (has_three, has_pair, eval) ->
  combination_level eval = combination_level (st.2).
Proof.
  revert st. induction indices as [|i rest IH]; intros st H.
  - simpl in H. inversion H. reflexivity.
  - simpl in H. destruct st as [[h3 hp] ev]. unfold kind_step in H at 1.
    destruct (rc i =? 4); [discriminate|].
    destruct (rc i =? 3); [apply IH in H; exact H|].
    destruct (rc i =? 2); [|apply IH in H; exact H].
    apply IH in H. rewrite H. simpl. destruct (_ || _); reflexivity.
Qed.

(** The straight loop returns early only with level 4. *)
Lemma straight_scan_return eval indices consecutive e :
  for_each (straight_step rc eval) indices consecutive = Return e ->
  combination_level e = 4 /\ second_highest_card e = second_highest_card eval.
Proof.
  revert consecutive. induction indices as [|i rest IH]; intros k H;
    [discriminate|].
  simpl in H. unfold straight_step in H at 1.
  destruct (0 <? rc i); [|by eapply IH].
  destruct (5 <=? k + 1); [|by eapply IH].
  inversion H. split; reflexivity.
Qed.

End Scans.

(** ** No flush next to four of a kind *)

Lemma suit_rank_count_other cards r s :
  mkCard r s ∉ cards ->
  suit_count cards s + rank_count cards r <= Z.of_nat (length cards).
Proof.
  unfold suit_count, rank_count.
  induction cards as [|c rest IH]; intros Hnot; [simpl; lia|].
  apply not_elem_of_cons in Hnot as [Hne Hrest]. specialize (IH Hrest).
  cbn [tally length].
  destruct (Z.eqb_spec (suit c) s), (Z.eqb_spec (rank c) r); try lia.
  destruct c as [cr cs]; simpl in *; subst. contradiction.
Qed.

Lemma suit_rank_count_nodup cards r s :
  NoDup cards ->
  suit_count cards s + rank_count cards r <= Z.of_nat (length cards) + 1.
Proof.
  induction 1 as [|c rest Hnotin Hnd IH]; [unfold suit_count, rank_count; simpl; lia|].
  unfold suit_count, rank_count in *. cbn [tally length].
  destruct (Z.eqb_spec (suit c) s), (Z.eqb_spec (rank c) r); try lia.
  assert (mkCard r s ∉ rest) as Hx.
  { destruct c as [cr cs]; simpl in *; subst. exact Hnotin. }
  pose proof (suit_rank_count_other rest r s Hx) as Hle.
  unfold suit_count, rank_count in Hle. lia.
Qed.

Lemma rank_count_two cards r r' :
  r <> r' -> rank_count cards r + rank_count cards r' <= Z.of_nat (length cards).
Proof.
  intros Hne. unfold rank_count.
  induction cards as [|c rest IH]; [simpl; lia|].
  cbn [tally length].
  destruct (Z.eqb_spec (rank c) r), (Z.eqb_spec (rank c) r'); lia.
Qed.

Lemma no_flush_test (sc : Z -> Z) suits :
  (forall s, sc s < 5) -> existsb (fun i => 5 <=? sc i) suits = false.
Proof.
  intros H. induction suits as [|s rest IH]; [reflexivity|].
  simpl. rewrite IH.
  destruct (Z.leb_spec 5 (sc s)); [specialize (H s); lia | reflexivity].
Qed.

Lemma valid_input_length hand community_cards :
  valid_input hand community_cards ->
  (2 <= length (hand ++ community_cards) <= 7)%nat.
Proof. intros (Hh & Hc & _). rewrite length_app. lia. Qed.

(** ** Four of a kind *)

(** C5.  For every valid input of 2 to 7 distinct cards: when some rank [r]
    occurs 4 times, [evaluate_hand] returns combination level 8 with
    [highest_card = r] (the flush test cannot fire first); and when no rank
    occurs 4 times the returned combination level is below 8. *)
Theorem four_of_a_kind_level_8 hand community_cards :
  valid_input hand community_cards ->
  (forall r, rank_count (hand ++ community_cards) r = 4 ->
     combination_level (evaluate_hand hand community_cards) = 8 /\
     highest_card (evaluate_hand hand community_cards) = r) /\
  ((forall r, rank_count (hand ++ community_cards) r <> 4) ->
     combination_level (evaluate_hand hand community_cards) < 8).
Proof.
  intros Hvalid. pose proof (valid_input_length _ _ Hvalid) as Hlen.
  destruct Hvalid as (_ & _ & Hcards & Hnodup).
  set (cards := hand ++ community_cards) in *.
  split.
  - intros r Hr. unfold evaluate_hand, classify. fold cards. cbv zeta.
    rewrite no_flush_test.
    2:{ intros s. unfold suit_count. rewrite tally_qsort.
        pose proof (suit_rank_count_nodup cards r s Hnodup).
        fold (suit_count cards s). lia. }
    destruct (kind_scan_quad (rank_count (qsort cards)) r (seqZ 0 NUM_RANKS)
                (false, false, mkEval 0 (top_rank (qsort cards)) (-1)))
      as (e & He & Hl & Hh).
    + unfold rank_count. rewrite tally_qsort. exact Hr.
    + destruct (tally_pos_elem rank cards r) as (c & Hc & Hk);
        [unfold rank_count in Hr; lia|].
      rewrite Forall_forall in Hcards. destruct (Hcards c Hc) as [Hrk _].
      apply elem_of_seqZ. unfold NUM_RANKS in *. lia.
    + intros i _ Hi. unfold rank_count in Hi. rewrite tally_qsort in Hi.
      destruct (decide (i = r)) as [|Hne]; [assumption|].
      pose proof (rank_count_two cards i r Hne). unfold rank_count in *. lia.
    + rewrite He. split; assumption.
  - intros Hnone. unfold evaluate_hand, classify. fold cards. cbv zeta.
    destruct (existsb _ _); [simpl; lia|].
    destruct (for_each (kind_step _) _ _)
      as [[[has_three has_pair] eval]|e] eqn:Hscan.
    + apply kind_scan_next in Hscan. simpl in Hscan.
      destruct (has_three && has_pair); [simpl; lia|].
      destruct has_three; [simpl; lia|].
      destruct (for_each (straight_step _ _) _ _) as [k|e] eqn:Hstraight.
      * destruct (fold_left _ _ _) as [pairs eval'].
        repeat case_match; simpl; lia.
      * apply straight_scan_return in Hstraight. lia.
    + apply kind_scan_return in Hscan as (_ & i & _ & Hi & _).
      unfold rank_count in Hi. rewrite tally_qsort in Hi.
      exfalso. exact (Hnone i Hi).
Qed.

Lemma four_of_a_kind_level_8_witness :
  combination_level
    (evaluate_hand [mkCard 5 2; mkCard 5 1] [mkCard 5 3; mkCard 5 0; mkCard 0 2]) = 8 /\
  highest_card
    (evaluate_hand [mkCard 5 2; mkCard 5 1] [mkCard 5 3; mkCard 5 0; mkCard 0 2]) = 5.
Proof.
  refine (proj1 (four_of_a_kind_level_8
            [mkCard 5 2; mkCard 5 1] [mkCard 5 3; mkCard 5 0; mkCard 0 2] _) 5 _).
  - apply (bool_decide_unpack _). vm_compute. exact I.
  - vm_compute. reflexivity.
Defined.

(** ** Flush *)

(** C3 as stated fails: with the ace of hearts next to five low spades the
    flush is reported with the ace's rank, not with the highest spade. *)
Lemma flush_highest_card_not_of_flush_suit :
  ~ (forall hand community_cards s,
       valid_input hand community_cards ->
       5 <= suit_count (hand ++ community_cards) s ->
       combination_level (evaluate_hand hand community_cards) = 6 /\
       highest_card (evaluate_hand hand community_cards)
       = highest_of_suit (hand ++ community_cards) s).
Proof.
  intros H.
  specialize (H [mkCard 12 0; mkCard 0 3]
                [mkCard 1 3; mkCard 2 3; mkCard 3 3; mkCard 5 3] 3).
  destruct H as [_ H].
  - apply (bool_decide_unpack _). vm_compute. exact I.
  - vm_compute. discriminate.
  - vm_compute in H. discriminate.
Qed.

(** C3, amended.  For every valid input of 2 to 7 distinct cards in which
    some suit occurs at least 5 times, [evaluate_hand] returns combination
    level 6 with [highest_card] equal to the highest rank among all the
    cards, whatever their suit, and [second_highest_card = -1]. *)
Theorem flush_level_6_highest_overall hand community_cards s :
  valid_input hand community_cards ->
  5 <= suit_count (hand ++ community_cards) s ->
  evaluate_hand hand community_cards
  = mkEval 6 (highest_rank (hand ++ community_cards)) (-1).
Proof.
  intros (_ & _ & Hcards & _) Hflush.
  unfold evaluate_hand, classify. cbv zeta.
  set (cards := hand ++ community_cards) in *.
  assert (existsb (fun i => 5 <=? suit_count (qsort cards) i) (seqZ 0 NUM_SUITS)
          = true) as ->.
  { apply existsb_exists. exists s. split.
    - destruct (tally_pos_elem suit cards s) as (c & Hc & Hs);
        [unfold suit_count in Hflush; lia|].
      rewrite Forall_forall in Hcards. destruct (Hcards c Hc) as [_ Hsuit].
      apply list_elem_of_In, elem_of_seqZ. lia.
    - unfold suit_count. rewrite tally_qsort. apply Z.leb_le. exact Hflush. }
  rewrite top_rank_qsort. reflexivity.
Qed.

Lemma flush_level_6_highest_overall_witness :
  evaluate_hand [mkCard 12 0; mkCard 0 3]
    [mkCard 1 3; mkCard 2 3; mkCard 3 3; mkCard 5 3]
  = mkEval 6 12 (-1).
Proof.
  apply (flush_level_6_highest_overall
           [mkCard 12 0; mkCard 0 3]
           [mkCard 1 3; mkCard 2 3; mkCard 3 3; mkCard 5 3] 3).
  - apply (bool_decide_unpack _). vm_compute. exact I.
  - vm_compute. discriminate.
Defined.

(** ** Pairs and the secondary rank *)

(** C6 fails on the code.  Kc 2d on the flop 2h 5s 9c is one pair of twos
    (rank 0) and nothing else; [highest_card] is initialised with the highest
    rank overall, the pair loop only raises it, and the result carries the
    king's rank 11 instead of the paired rank 0. *)
Theorem one_pair_reports_highest_rank_overall :
  rank_count ([mkCard 11 2; mkCard 0 1] ++ [mkCard 0 0; mkCard 3 3; mkCard 7 2]) 0
  = 2 /\
  evaluate_hand [mkCard 11 2; mkCard 0 1] [mkCard 0 0; mkCard 3 3; mkCard 7 2]
  = mkEval 1 11 0.
Proof. vm_compute. repeat split. Qed.

(** C7 fails on the code.  The multiple-of-a-kind loop records a pair it meets
    before the rank of count 4 and returns without clearing it: four sevens
    with a pair of twos yield [second_highest_card = 0] at level 8, while four
    sevens with a pair of nines (met after the sevens) yield -1. *)
Theorem four_of_a_kind_keeps_a_lower_pair :
  evaluate_hand [mkCard 0 2; mkCard 0 1]
    [mkCard 5 0; mkCard 5 1; mkCard 5 2; mkCard 5 3]
  = mkEval 8 5 0 /\
  evaluate_hand [mkCard 7 2; mkCard 7 1]
    [mkCard 5 0; mkCard 5 1; mkCard 5 2; mkCard 5 3]
  = mkEval 8 5 (-1).
Proof. vm_compute. repeat split. Qed.

(** * Properties of [is_hand_better] *)

(** Swapping the two hands swaps the verdict of the positional fallback, and
    both runs leave the loop at the same iteration. *)
Lemma positional_antisym hand1 hand2 community_cards indices log1 log2 :
  match for_each (positional_step hand1 hand2 community_cards) indices log1,
        for_each (positional_step hand2 hand1 community_cards) indices log2 with
  | Return (b1, _), Return (b2, _) => b1 = negb b2
  | Next _, Next _ => True
  | _, _ => False
  end.
Proof.
  revert log1 log2. induction indices as [|i rest IH]; intros log1 log2;
    [exact I|].
  simpl.
  destruct (positional_step hand1 hand2 _ log1 i) as [s1|[b1 l1]] eqn:E1;
    destruct (positional_step hand2 hand1 _ log2 i) as [s2|[b2 l2]] eqn:E2;
    unfold positional_step in E1, E2; rewrite !Z.gtb_ltb in E1, E2;
    (destruct (rank (community_cards i) =? -1);
     [| destruct (Z.ltb_spec (rank (hand2 i)) (rank (hand1 i))),
                 (Z.ltb_spec (rank (hand1 i)) (rank (hand2 i)))]);
    simplify_eq; try lia; try reflexivity; apply IH.
Qed.

(** As long as both calls find the same cells behind each pointer, beyond the
    arrays too, [is_hand_better(A, B)] and [is_hand_better(B, A)] are never
    both true. *)
Lemma is_hand_better_same_memory hand1 hand2 community_cards community_size :
  ~ ((is_hand_better hand1 hand2 community_cards community_size).1 = true /\
     (is_hand_better hand2 hand1 community_cards community_size).1 = true).
Proof.
  unfold is_hand_better. cbv zeta.
  set (e1 := evaluate_hand (cells hand1 HAND_SIZE) _).
  set (e2 := evaluate_hand (cells hand2 HAND_SIZE) _).
  pose proof (positional_antisym hand1 hand2 community_cards
                (reverse (seqZ 0 (HAND_SIZE + community_size)))
                (evaluate_reads community_size)
                (evaluate_reads community_size)) as Hpos.
  clearbody e1 e2. rewrite !Z.gtb_ltb.
  repeat match goal with
         | |- context [?a <? ?b] =>
             destruct (Z.ltb_spec a b); simpl; try lia;
             try (intros [? ?]; discriminate)
         | |- context [?a =? ?b] =>
             destruct (Z.eqb_spec a b); simpl; try lia;
             try (intros [? ?]; discriminate)
         end.
  destruct (for_each (positional_step hand1 hand2 _) _ _) as [l1|[b1 l1]],
           (for_each (positional_step hand2 hand1 _) _ _) as [l2|[b2 l2]];
    simpl; try contradiction; intros [Ha Hb]; try discriminate.
  subst. discriminate.
Qed.

(** C8 fails on the code.  On a tie without secondary rank the verdict is
    taken from cells beyond the arrays, so it is not determined by the two
    hands and the community cards.  Ace-king against ace-king on 2h 5d 9c:
    the fallback starts at index 4, where it compares the cell that follows
    the first hand with the cell that follows the second.  Whenever the
    first is of higher rank (and the cell after the community cards is not
    of rank -1) the call returns true, for the hands in either order. *)
Theorem is_hand_better_both_true_on_a_tie high low stray :
  rank stray <> -1 -> rank low < rank high ->
  (is_hand_better
     (array_of [mkCard 12 0; mkCard 11 1] high)
     (array_of [mkCard 12 3; mkCard 11 2] low)
     (array_of [mkCard 0 0; mkCard 3 1; mkCard 7 2] stray) 3).1 = true /\
  (is_hand_better
     (array_of [mkCard 12 3; mkCard 11 2] high)
     (array_of [mkCard 12 0; mkCard 11 1] low)
     (array_of [mkCard 0 0; mkCard 3 1; mkCard 7 2] stray) 3).1 = true.
Proof.
  intros Hstray Hrank.
  assert (forall hand_a hand_b,
            evaluate_hand hand_a [mkCard 0 0; mkCard 3 1; mkCard 7 2]
            = mkEval 0 12 (-1) ->
            evaluate_hand hand_b [mkCard 0 0; mkCard 3 1; mkCard 7 2]
            = mkEval 0 12 (-1) ->
            length hand_a = 2%nat -> length hand_b = 2%nat ->
            (is_hand_better (array_of hand_a high) (array_of hand_b low)
               (array_of [mkCard 0 0; mkCard 3 1; mkCard 7 2] stray) 3).1
            = true) as Hcall.
  { intros hand_a hand_b Ha Hb Hla Hlb.
    destruct hand_a as [|a1 [|a2 [|]]]; try discriminate.
    destruct hand_b as [|b1 [|b2 [|]]]; try discriminate.
    unfold is_hand_better. cbv zeta.
    change (cells (array_of [a1; a2] high) HAND_SIZE) with [a1; a2].
    change (cells (array_of [b1; b2] low) HAND_SIZE) with [b1; b2].
    change (cells (array_of [mkCard 0 0; mkCard 3 1; mkCard 7 2] stray) 3)
      with [mkCard 0 0; mkCard 3 1; mkCard 7 2].
    rewrite Ha, Hb.
    cbn [combination_level highest_card second_highest_card].
    change (reverse (seqZ 0 (HAND_SIZE + 3))) with [4; 3; 2; 1; 0].
    change (0 >? 0) with false. change (0 <? 0) with false.
    change (12 >? 12) with false. change (12 <? 12) with false.
    change (-1 =? -1) with true. cbn [negb andb for_each].
    unfold positional_step at 1.
    change (array_of [mkCard 0 0; mkCard 3 1; mkCard 7 2] stray 4) with stray.
    change (array_of [a1; a2] high 4) with high.
    change (array_of [b1; b2] low 4) with low.
    destruct (Z.eqb_spec (rank stray) (-1)); [contradiction|].
    rewrite Z.gtb_ltb. destruct (Z.ltb_spec (rank low) (rank high)); [|lia].
    reflexivity. }
  split; apply Hcall; reflexivity.
Qed.

Lemma is_hand_better_both_true_on_a_tie_witness :
  (is_hand_better
     (array_of [mkCard 12 0; mkCard 11 1] (mkCard 7 0))
     (array_of [mkCard 12 3; mkCard 11 2] (mkCard 3 0))
     (array_of [mkCard 0 0; mkCard 3 1; mkCard 7 2] (mkCard 9 1)) 3).1 = true /\
  (is_hand_better
     (array_of [mkCard 12 3; mkCard 11 2] (mkCard 7 0))
     (array_of [mkCard 12 0; mkCard 11 1] (mkCard 3 0))
     (array_of [mkCard 0 0; mkCard 3 1; mkCard 7 2] (mkCard 9 1)) 3).1 = true.
Proof.
  apply is_hand_better_both_true_on_a_tie; simpl; lia.
Defined.

(** ** The reads of the positional fallback *)

Lemma positional_log_extends hand1 hand2 community_cards indices log :
  exists more,
    result_log (for_each (positional_step hand1 hand2 community_cards) indices log)
    = log ++ more.
Proof.
  revert log. induction indices as [|i rest IH]; intros log.
  - exists []. simpl. by rewrite app_nil_r.
  - simpl. unfold positional_step at 1.
    destruct (rank (community_cards i) =? -1).
    + destruct (IH (log ++ [Community i])) as [more ->].
      exists ([Community i] ++ more). by rewrite app_assoc.
    + destruct (rank (hand1 i) >? rank (hand2 i));
        [exists ([Community i] ++ [Hand1 i; Hand2 i]); simpl; by rewrite <- app_assoc|].
      destruct (rank (hand1 i) <? rank (hand2 i));
        [exists ([Community i] ++ [Hand1 i; Hand2 i]); simpl; by rewrite <- app_assoc|].
      destruct (IH ((log ++ [Community i]) ++ [Hand1 i; Hand2 i])) as [more ->].
      exists ([Community i] ++ [Hand1 i; Hand2 i] ++ more).
      by rewrite <- !app_assoc.
Qed.

(** The loop reads [community_cards[i]] at its first index [i], before
    anything else. *)
Lemma positional_reads_first_index hand1 hand2 community_cards i rest log :
  Community i ∈
    result_log (for_each (positional_step hand1 hand2 community_cards)
                  (i :: rest) log).
Proof.
  destruct (positional_log_extends hand1 hand2 community_cards rest
              (log ++ [Community i])) as [more1 H1].
  destruct (positional_log_extends hand1 hand2 community_cards rest
              ((log ++ [Community i]) ++ [Hand1 i; Hand2 i])) as [more2 H2].
  simpl. unfold positional_step at 1.
  destruct (rank (community_cards i) =? -1).
  - rewrite H1. rewrite !elem_of_app, list_elem_of_singleton. auto.
  - destruct (rank (hand1 i) >? rank (hand2 i));
      [simpl; rewrite !elem_of_app, list_elem_of_singleton; auto|].
    destruct (rank (hand1 i) <? rank (hand2 i));
      [simpl; rewrite !elem_of_app, list_elem_of_singleton; auto|].
    rewrite H2. rewrite !elem_of_app, list_elem_of_singleton. auto.
Qed.

(** C10 fails on the code.  Ace-king against ace-king on a three-card flop
    (2h 5d 9c) ties on all three evaluation fields with no secondary rank, so
    the positional fallback runs; whatever the memory next to the arrays
    holds, its first iteration reads [community_cards[4]] of a 3-cell array,
    an access outside the bounds. *)
Theorem positional_fallback_reads_past_community stray :
  let reads :=
    (is_hand_better
       (array_of [mkCard 12 0; mkCard 11 1] stray)
       (array_of [mkCard 12 3; mkCard 11 2] stray)
       (array_of [mkCard 0 0; mkCard 3 1; mkCard 7 2] stray) 3).2 in
  Community 4 ∈ reads /\ in_bounds 3 (Community 4) = false.
Proof.
  cbv zeta. split; [|reflexivity].
  unfold is_hand_better. cbv zeta.
  change (cells (array_of [mkCard 12 0; mkCard 11 1] stray) HAND_SIZE)
    with [mkCard 12 0; mkCard 11 1].
  change (cells (array_of [mkCard 12 3; mkCard 11 2] stray) HAND_SIZE)
    with [mkCard 12 3; mkCard 11 2].
  change (cells (array_of [mkCard 0 0; mkCard 3 1; mkCard 7 2] stray) 3)
    with [mkCard 0 0; mkCard 3 1; mkCard 7 2].
  change (evaluate_hand [mkCard 12 0; mkCard 11 1]
            [mkCard 0 0; mkCard 3 1; mkCard 7 2]) with (mkEval 0 12 (-1)).
  change (evaluate_hand [mkCard 12 3; mkCard 11 2]
            [mkCard 0 0; mkCard 3 1; mkCard 7 2]) with (mkEval 0 12 (-1)).
  cbn [combination_level highest_card second_highest_card].
  change (reverse (seqZ 0 (HAND_SIZE + 3))) with [4; 3; 2; 1; 0].
  change (0 >? 0) with false. change (0 <? 0) with false.
  change (12 >? 12) with false. change (12 <? 12) with false.
  change (-1 =? -1) with true. cbn [negb andb].
  pose proof (positional_reads_first_index
                (array_of [mkCard 12 0; mkCard 11 1] stray)
                (array_of [mkCard 12 3; mkCard 11 2] stray)
                (array_of [mkCard 0 0; mkCard 3 1; mkCard 7 2] stray)
                4 [3; 2; 1; 0] (evaluate_reads 3)) as Hread.
  destruct (for_each _ _ _) as [log|[b log]]; exact Hread.
Qed.

(** The fallback can decide: king kicker against queen kicker before the
    flop, when the cell after the (empty) community array does not hold
    rank -1. *)
Example positional_fallback_decides :
  (is_hand_better
     (array_of [mkCard 12 0; mkCard 11 1] (mkCard 0 0))
     (array_of [mkCard 12 3; mkCard 10 2] (mkCard 0 0))
     (array_of [] (mkCard 0 0)) 0).1 = true.
Proof. vm_compute. reflexivity. Qed.

(** X3.  Whenever the positional fallback of [is_hand_better] is reached (the
    two evaluations tie and neither has a secondary rank), its first
    iteration reads [community_cards[community_size + 1]], two cells past the
    end of the community array. *)
Theorem positional_fallback_reads_out_of_bounds
    hand1 hand2 community_cards community_size :
  0 <= community_size ->
  let community := cells community_cards community_size in
  let eval1 := evaluate_hand (cells hand1 HAND_SIZE) community in
  let eval2 := evaluate_hand (cells hand2 HAND_SIZE) community in
  combination_level eval1 = combination_level eval2 ->
  highest_card eval1 = highest_card eval2 ->
  second_highest_card eval1 = -1 ->
  second_highest_card eval2 = -1 ->
  Community (community_size + 1)
    ∈ (is_hand_better hand1 hand2 community_cards community_size).2 /\
  in_bounds community_size (Community (community_size + 1)) = false.
Proof.
  intros Hsize community eval1 eval2 Hlevel Hhigh Hsecond1 Hsecond2.
  split.
  2:{ simpl. destruct (Z.ltb_spec (community_size + 1) community_size); [lia|].
      apply andb_false_r. }
  unfold is_hand_better. cbv zeta. fold community. fold eval1. fold eval2.
  rewrite Hlevel, Hhigh, Hsecond1, Hsecond2, !Z.gtb_ltb, !Z.ltb_irrefl.
  change (-1 =? -1) with true. cbn [negb andb].
  replace (HAND_SIZE + community_size)
    with (Z.of_nat (S (Z.to_nat (community_size + 1))))
    by (unfold HAND_SIZE; lia).
  rewrite seqZ_S, reverse_snoc.
  replace (0 + Z.of_nat (Z.to_nat (community_size + 1)))
    with (community_size + 1) by lia.
  pose proof (positional_reads_first_index hand1 hand2 community_cards
                (community_size + 1)
                (reverse (seqZ 0 (Z.of_nat (Z.to_nat (community_size + 1)))))
                (evaluate_reads community_size)) as Hread.
  destruct (for_each _ _ _) as [log|[b log]]; exact Hread.
Qed.

Lemma positional_fallback_reads_out_of_bounds_witness :
  Community (0 + 1)
    ∈ (is_hand_better
         (array_of [mkCard 12 0; mkCard 11 1] (mkCard 0 0))
         (array_of [mkCard 12 3; mkCard 10 2] (mkCard 0 0))
         (array_of [] (mkCard 0 0)) 0).2 /\
  in_bounds 0 (Community (0 + 1)) = false.
Proof.
  apply (positional_fallback_reads_out_of_bounds
           (array_of [mkCard 12 0; mkCard 11 1] (mkCard 0 0))
           (array_of [mkCard 12 3; mkCard 10 2] (mkCard 0 0))
           (array_of [] (mkCard 0 0)) 0).
  - lia.
  - vm_compute. reflexivity.
  - vm_compute. reflexivity.
  - vm_compute. reflexivity.
  - vm_compute. reflexivity.
Defined.

(** * Properties of [find_winning_opponent] *)

Lemma beats_eval_gt a b : beats a b = true <-> eval_gt a b.
Proof.
  unfold beats, eval_gt. rewrite !Z.gtb_ltb.
  destruct (Z.ltb_spec (combination_level b) (combination_level a)),
           (Z.eqb_spec (combination_level a) (combination_level b)),
           (Z.ltb_spec (highest_card b) (highest_card a)),
           (Z.eqb_spec (highest_card a) (highest_card b)),
           (Z.ltb_spec (second_highest_card b) (second_highest_card a));
    simpl; split; (lia || discriminate || (intros _; reflexivity) || idtac).
Qed.

Lemma not_eval_gt_beaten player_eval community_cards hands :
  Forall (fun hand => ~ eval_gt (evaluate_hand hand community_cards) player_eval)
         hands ->
  Forall (fun hand => beats (evaluate_hand hand community_cards) player_eval
                      = false) hands.
Proof.
  intros Hall. eapply Forall_impl; [exact Hall|]. intros hand Hno. simpl in *.
  destruct (beats _ _) eqn:Hb; [|reflexivity].
  exfalso. by apply Hno, beats_eval_gt.
Qed.

(** The loop leaves its state alone when no opponent beats the player, and
    otherwise ends on the last opponent that does. *)
Lemma scan_opponents_last player_eval community_cards opponent_hands i st :
  let beaten hand :=
    beats (evaluate_hand hand community_cards) player_eval = false in
  (scan_opponents player_eval community_cards opponent_hands i st = st /\
   Forall beaten opponent_hands) \/
  (exists before hand after,
     opponent_hands = before ++ hand :: after /\
     beats (evaluate_hand hand community_cards) player_eval = true /\
     Forall beaten after /\
     scan_opponents player_eval community_cards opponent_hands i st
     = (false, i + Z.of_nat (length before))).
Proof.
  intros beaten. revert i st.
  induction opponent_hands as [|hand rest IH]; intros i st.
  - left. split; [reflexivity | constructor].
  - cbn [scan_opponents].
    destruct (IH (i + 1)
                (if beats (evaluate_hand hand community_cards) player_eval
                 then (false, i) else st))
      as [[Hscan Hall]|(before & h & after & -> & Hh & Hafter & Hscan)].
    + destruct (beats (evaluate_hand hand community_cards) player_eval) eqn:Hb.
      * right. exists [], hand, rest. rewrite Hscan. simpl.
        repeat split; [exact Hb | exact Hall | f_equal; lia].
      * left. split; [exact Hscan | by constructor].
    + right. exists (hand :: before), h, after. rewrite Hscan.
      repeat split; [exact Hh | exact Hafter | simpl; f_equal; lia].
Qed.

(** X1.  The result is -1 exactly when no opponent's evaluation is strictly
    greater than the player's in the lexicographic order. *)
Theorem find_winning_opponent_minus_1 player_hand opponent_hands community_cards :
  find_winning_opponent player_hand opponent_hands community_cards = -1 <->
  Forall (fun hand => ~ eval_gt (evaluate_hand hand community_cards)
                        (evaluate_hand player_hand community_cards))
         opponent_hands.
Proof.
  unfold find_winning_opponent. cbv zeta.
  destruct (scan_opponents_last (evaluate_hand player_hand community_cards)
              community_cards opponent_hands 0 (true, -1))
    as [[-> Hall]|(before & hand & after & -> & Hhand & _ & ->)].
  - split; [intros _|reflexivity].
    eapply Forall_impl; [exact Hall|]. intros hand Hb Hgt.
    apply beats_eval_gt in Hgt. simpl in Hb. congruence.
  - split; [lia|]. intros Hall.
    apply Forall_app in Hall as [_ Hall]. apply Forall_cons in Hall as [Hno _].
    exfalso. apply Hno, beats_eval_gt, Hhand.
Qed.

(** X2.  What the loop returns otherwise: the index of the last opponent
    whose evaluation is strictly greater than the player's, whatever the
    evaluations of the opponents before it. *)
Theorem find_winning_opponent_last
    player_hand community_cards before hand after :
  eval_gt (evaluate_hand hand community_cards)
          (evaluate_hand player_hand community_cards) ->
  Forall (fun later => ~ eval_gt (evaluate_hand later community_cards)
                         (evaluate_hand player_hand community_cards)) after ->
  find_winning_opponent player_hand (before ++ hand :: after) community_cards
  = Z.of_nat (length before).
Proof.
  intros Hhand Hafter. unfold find_winning_opponent. cbv zeta.
  destruct (scan_opponents_last (evaluate_hand player_hand community_cards)
              community_cards (before ++ hand :: after) 0 (true, -1))
    as [[_ Hall]|(before' & hand' & after' & Heq & Hhand' & Hafter' & ->)].
  - apply Forall_app in Hall as [_ Hall]. apply Forall_cons in Hall as [Hno _].
    apply beats_eval_gt in Hhand. simpl in Hno. congruence.
  - apply not_eval_gt_beaten in Hafter. apply beats_eval_gt in Hhand.
    enough (length before' = length before) as -> by (simpl; lia).
    revert before' Heq.
    induction before as [|x before IH]; intros before' Heq.
    + destruct before' as [|y before']; [reflexivity|].
      simpl in Heq. injection Heq as -> ->.
      apply Forall_app in Hafter as [_ Hafter].
      apply Forall_cons in Hafter as [Hno _]. simpl in Hno. congruence.
    + destruct before' as [|y before'].
      * simpl in Heq. injection Heq as -> <-.
        apply Forall_app in Hafter' as [_ Hafter'].
        apply Forall_cons in Hafter' as [Hno _]. simpl in Hno. congruence.
      * simpl in Heq. injection Heq as -> Heq. simpl. f_equal. by apply IH.
Qed.

Lemma find_winning_opponent_last_witness :
  find_winning_opponent [mkCard 11 2; mkCard 11 1]
    ([[mkCard 7 2; mkCard 7 0]] ++ [mkCard 12 2; mkCard 12 1] :: [])
    [mkCard 0 3; mkCard 3 0; mkCard 7 1; mkCard 9 2; mkCard 1 3]
  = Z.of_nat (length [[mkCard 7 2; mkCard 7 0]]).
Proof.
  apply (find_winning_opponent_last [mkCard 11 2; mkCard 11 1]
           [mkCard 0 3; mkCard 3 0; mkCard 7 1; mkCard 9 2; mkCard 1 3]
           [[mkCard 7 2; mkCard 7 0]] [mkCard 12 2; mkCard 12 1] []).
  - apply beats_eval_gt. vm_compute. reflexivity.
  - constructor.
Defined.

(** C2 fails on the code.  On the board 2s 5h 9d Jc 3s the player holds a
    pair of kings, opponent 0 three nines and opponent 1 a pair of aces.
    Both opponents beat the player and opponent 0 has the greater
    evaluation, yet the loop keeps the last index that beats the player and
    returns 1. *)
Theorem find_winning_opponent_returns_last_winner :
  evaluate_hand [mkCard 11 2; mkCard 11 1]
    [mkCard 0 3; mkCard 3 0; mkCard 7 1; mkCard 9 2; mkCard 1 3]
  = mkEval 1 11 11 /\
  evaluate_hand [mkCard 7 2; mkCard 7 0]
    [mkCard 0 3; mkCard 3 0; mkCard 7 1; mkCard 9 2; mkCard 1 3]
  = mkEval 3 7 (-1) /\
  evaluate_hand [mkCard 12 2; mkCard 12 1]
    [mkCard 0 3; mkCard 3 0; mkCard 7 1; mkCard 9 2; mkCard 1 3]
  = mkEval 1 12 12 /\
  find_winning_opponent [mkCard 11 2; mkCard 11 1]
    [[mkCard 7 2; mkCard 7 0]; [mkCard 12 2; mkCard 12 1]]
    [mkCard 0 3; mkCard 3 0; mkCard 7 1; mkCard 9 2; mkCard 1 3]
  = 1.
Proof. vm_compute. repeat split. Qed.

(** * Properties of the simulator *)

(** ** Array accessors *)

Lemma read_in_range {A : Type} (a : list A) (i : Z) :
  0 <= i < Z.of_nat (length a) -> exists x, read a i = Some x /\ x ∈ a.
Proof.
  intros Hi. unfold read.
  destruct (Z.leb_spec 0 i); [|lia].
  destruct (lookup_lt_is_Some_2 a (Z.to_nat i)) as [x Hx]; [lia|].
  exists x. split; [exact Hx | by eapply list_elem_of_lookup_2].
Qed.

Lemma write_in_range {A : Type} (a : list A) (i : Z) (x : A) :
  0 <= i < Z.of_nat (length a) -> write a i x = Some (<[Z.to_nat i := x]> a).
Proof.
  intros Hi. unfold write.
  destruct (Z.leb_spec 0 i), (Z.ltb_spec i (Z.of_nat (length a)));
    try lia; reflexivity.
Qed.

(** ** Marked cards *)

Lemma marked_app l1 l2 : marked (l1 ++ l2) = marked l1 + marked l2.
Proof.
  unfold marked, rank_count.
  induction l1 as [|c rest IH]; simpl; [reflexivity | rewrite IH; lia].
Qed.

Lemma marked_nonneg deck : 0 <= marked deck.
Proof. apply tally_nonneg. Qed.

Lemma marked_none deck : Forall unmarked deck -> marked deck = 0.
Proof.
  unfold marked, rank_count.
  induction 1 as [|c rest Hc _ IH]; [reflexivity|].
  simpl. rewrite IH. destruct (Z.eqb_spec (rank c) (-1)); [contradiction | lia].
Qed.

Lemma marked_insert_le deck i x : marked (<[i := x]> deck) <= marked deck + 1.
Proof.
  unfold marked, rank_count. revert i.
  induction deck as [|c rest IH]; intros i; [simpl; lia|].
  destruct i as [|i]; simpl.
  - repeat case_match; lia.
  - specialize (IH i). lia.
Qed.

(** ** initialize_deck and shuffle_deck *)

Lemma initialize_deck_length : length initialize_deck = Z.to_nat NUM_CARDS.
Proof. reflexivity. Qed.

Lemma initialize_deck_unmarked : Forall unmarked initialize_deck.
Proof. apply (bool_decide_unpack _). vm_compute. exact I. Qed.

Section SimulatorProperties.

Context (rand : nat -> Z).

(** [rand()] returns a value between 0 and [RAND_MAX]. *)
Hypothesis rand_nonneg : forall n, 0 <= rand n.

(** The shuffle stays inside the deck, makes one [rand()] call per step and
    moves cards around without changing any. *)
Lemma shuffle_from_ok i deck calls :
  (i < length deck)%nat -> Forall unmarked deck ->
  exists deck', shuffle_from rand i deck calls = Some (deck', (calls + i)%nat) /\
                length deck' = length deck /\ Forall unmarked deck'.
Proof.
  revert deck calls. induction i as [|i IH]; intros deck calls Hlen Hdeck.
  - exists deck. simpl. rewrite Nat.add_0_r. done.
  - cbn [shuffle_from].
    set (j := Z.rem (rand calls) (Z.of_nat (S i) + 1)).
    assert (0 <= j < Z.of_nat (S i) + 1) as Hj
      by (apply Z.rem_bound_pos; [apply rand_nonneg | lia]).
    destruct (read_in_range deck (Z.of_nat (S i))) as (temp & -> & Htemp); [lia|].
    destruct (read_in_range deck j) as (dj & -> & Hdj); [lia|].
    cbn [mbind option_bind].
    rewrite write_in_range by lia. cbn [mbind option_bind].
    rewrite write_in_range by (rewrite length_insert; lia).
    cbn [mbind option_bind].
    rewrite Forall_forall in Hdeck.
    destruct (IH (<[Z.to_nat j := temp]> (<[Z.to_nat (Z.of_nat (S i)) := dj]> deck))
                (S calls)) as (deck' & Hrun & Hlen' & Hdeck').
    + rewrite !length_insert. lia.
    + apply Forall_insert; [apply Forall_insert|]; auto.
      by apply Forall_forall.
    + exists deck'. rewrite Hrun, Hlen', !length_insert.
      split; [f_equal; f_equal; lia | done].
Qed.

Lemma shuffle_deck_ok calls :
  exists deck calls', shuffle_deck rand initialize_deck calls = Some (deck, calls') /\
                      length deck = Z.to_nat NUM_CARDS /\ marked deck = 0.
Proof.
  destruct (shuffle_from_ok (Z.to_nat (NUM_CARDS - 1)) initialize_deck calls)
    as (deck & Hrun & Hlen & Hdeck).
  - rewrite initialize_deck_length. unfold NUM_CARDS. lia.
  - apply initialize_deck_unmarked.
  - exists deck, (calls + Z.to_nat (NUM_CARDS - 1))%nat.
    split; [exact Hrun|]. split; [by rewrite Hlen | by apply marked_none].
Qed.

(** ** Marking the known cards *)

Lemma mark_ok deck c :
  length deck = Z.to_nat NUM_CARDS -> valid_card c ->
  exists deck', mark deck c = Some deck' /\ length deck' = length deck /\
                marked deck' <= marked deck + 1.
Proof.
  intros Hlen [Hr Hs]. unfold mark. cbv zeta.
  assert (0 <= rank c * NUM_SUITS + suit c < Z.of_nat (length deck)) as Hi
    by (rewrite Hlen; unfold NUM_RANKS, NUM_SUITS, NUM_CARDS in *; lia).
  destruct (read_in_range deck _ Hi) as (old & -> & _).
  cbn [mbind option_bind]. rewrite write_in_range by exact Hi.
  eexists. split; [reflexivity|].
  split; [apply length_insert | apply marked_insert_le].
Qed.

Lemma mark_all_ok cards deck :
  length deck = Z.to_nat NUM_CARDS -> Forall valid_card cards ->
  exists deck', mark_all cards deck = Some deck' /\ length deck' = length deck /\
                marked deck' <= marked deck + Z.of_nat (length cards).
Proof.
  intros Hlen Hcards. revert deck Hlen.
  induction Hcards as [|c rest Hc _ IH]; intros deck Hlen.
  - exists deck. simpl. split; [reflexivity|]. split; [reflexivity | lia].
  - destruct (mark_ok deck c Hlen Hc) as (deck1 & Hmark & Hlen1 & Hm1).
    destruct (IH deck1) as (deck2 & Hrest & Hlen2 & Hm2); [congruence|].
    exists deck2. cbn [mark_all]. rewrite Hmark. cbn [mbind option_bind].
    split; [exact Hrest|]. split; [congruence|].
    rewrite length_cons. lia.
Qed.

(** ** Dealing around the marked cells *)

Lemma next_available_split unread current_card :
  marked unread < Z.of_nat (length unread) ->
  exists skipped c rest,
    unread = skipped ++ c :: rest /\
    marked skipped = Z.of_nat (length skipped) /\ unmarked c /\
    next_available unread current_card
    = Some (c, current_card + Z.of_nat (length skipped) + 1).
Proof.
  revert current_card.
  induction unread as [|d unread IH]; intros current_card Hfree;
    [unfold marked, rank_count in Hfree; simpl in Hfree; lia|].
  cbn [next_available]. change (d :: unread) with ([d] ++ unread) in Hfree.
  rewrite marked_app in Hfree. unfold marked at 1, rank_count in Hfree.
  simpl in Hfree.
  destruct (Z.eqb_spec (rank d) (-1)) as [Hd|Hd].
  - destruct (IH (current_card + 1)) as (skipped & c & rest & -> & Hs & Hc & Hrun);
      [lia|].
    exists (d :: skipped), c, rest. split; [reflexivity|].
    split; [|split; [exact Hc|]].
    + change (d :: skipped) with ([d] ++ skipped). rewrite marked_app, Hs.
      unfold marked, rank_count. simpl. rewrite Hd. simpl. lia.
    + rewrite Hrun. f_equal. f_equal. simpl. lia.
  - exists [], d, unread. repeat split; [exact Hd | f_equal; f_equal; simpl; lia].
Qed.

Lemma cursor_at_bound dealt deck current_card :
  cursor_at dealt deck current_card ->
  0 <= current_card <= dealt + marked deck.
Proof.
  intros (seen & unread & -> & -> & Hseen). rewrite marked_app.
  pose proof (marked_nonneg unread). lia.
Qed.

Lemma deal_one_ok dealt deck current_card :
  cursor_at dealt deck current_card ->
  dealt + marked deck < Z.of_nat (length deck) ->
  exists c current_card',
    deal_one deck current_card = Some (c, current_card') /\ unmarked c /\
    c ∈ deck /\ cursor_at (dealt + 1) deck current_card'.
Proof.
  intros (seen & unread & -> & -> & Hseen) Hfree.
  rewrite marked_app, length_app in Hfree.
  destruct (next_available_split unread (Z.of_nat (length seen)))
    as (skipped & c & rest & -> & Hs & Hc & Hrun); [lia|].
  exists c, (Z.of_nat (length seen) + Z.of_nat (length skipped) + 1).
  split; [|split; [exact Hc|split]].
  - unfold deal_one. destruct (Z.leb_spec 0 (Z.of_nat (length seen))); [|lia].
    rewrite Nat2Z.id, drop_app_length. exact Hrun.
  - rewrite !elem_of_app, elem_of_cons. auto.
  - exists (seen ++ skipped ++ [c]), rest. split; [by rewrite <- !app_assoc|].
    rewrite !length_app, !marked_app. simpl.
    assert (marked [c] = 0) as -> by (apply marked_none; by constructor).
    lia.
Qed.

Lemma deal_opponents_ok n dealt deck current_card :
  cursor_at dealt deck current_card ->
  dealt + 2 * Z.of_nat n + marked deck <= Z.of_nat (length deck) ->
  exists hands current_card',
    deal_opponents n deck current_card = Some (hands, current_card') /\
    length hands = n /\
    Forall (fun hand => length hand = 2%nat /\ Forall unmarked hand /\
                        forall c, c ∈ hand -> c ∈ deck) hands /\
    cursor_at (dealt + 2 * Z.of_nat n) deck current_card'.
Proof.
  revert dealt current_card.
  induction n as [|n IH]; intros dealt current_card Hcur Hfree.
  - exists [], current_card. simpl. repeat split; [constructor|].
    by replace (dealt + 2 * Z.of_nat 0) with dealt by lia.
  - cbn [deal_opponents].
    destruct (deal_one_ok _ _ _ Hcur) as (c0 & cur0 & -> & Hc0 & Hin0 & Hcur0); [lia|].
    cbn [mbind option_bind].
    destruct (deal_one_ok _ _ _ Hcur0) as (c1 & cur1 & -> & Hc1 & Hin1 & Hcur1); [lia|].
    cbn [mbind option_bind].
    destruct (IH _ _ Hcur1) as (hands & cur' & -> & Hlen & Hhands & Hcur'); [lia|].
    cbn [mbind option_bind].
    exists ([c0; c1] :: hands), cur'. split; [reflexivity|].
    split; [simpl; lia|]. split.
    + constructor; [|exact Hhands]. split; [reflexivity|].
      split; [by repeat constructor|].
      intros c Hc. apply elem_of_cons in Hc as [->|Hc]; [assumption|].
      apply elem_of_cons in Hc as [->|Hc]; [assumption|].
      by apply elem_of_nil in Hc.
    + by replace (dealt + 2 * Z.of_nat (S n))
        with (dealt + 1 + 1 + 2 * Z.of_nat n) by lia.
Qed.

(** ** One trial *)

Lemma trial_ok player_hand community_cards num_players calls :
  length player_hand = 2%nat -> (length community_cards <= 5)%nat ->
  Forall valid_card (player_hand ++ community_cards) ->
  2 <= num_players <= 6 ->
  exists opponent_hands current_card calls',
    trial rand player_hand community_cards num_players calls
    = Some (opponent_hands, current_card, calls') /\
    Z.of_nat (length opponent_hands) = num_players - 1 /\
    0 <= current_card <= 17.
Proof.
  intros Hhand Hcommunity Hcards Hplayers.
  apply Forall_app in Hcards as [Hvh Hvc].
  unfold trial.
  destruct (shuffle_deck_ok calls) as (deck0 & calls' & -> & Hlen0 & Hm0).
  cbn [mbind option_bind].
  destruct (mark_all_ok player_hand deck0 Hlen0 Hvh) as (deck1 & -> & Hlen1 & Hm1).
  cbn [mbind option_bind].
  destruct (mark_all_ok community_cards deck1) as (deck2 & -> & Hlen2 & Hm2);
    [congruence | exact Hvc |].
  cbn [mbind option_bind].
  assert (cursor_at 0 deck2 0) as Hcur.
  { exists [], deck2. repeat split. }
  destruct (deal_opponents_ok (Z.to_nat (num_players - 1)) 0 deck2 0 Hcur)
    as (hands & cur & -> & Hlen & _ & Hcur').
  { rewrite Hlen2, Hlen1, Hlen0. unfold NUM_CARDS. lia. }
  cbn [mbind option_bind].
  exists hands, cur, calls'. split; [reflexivity|]. split; [lia|].
  apply cursor_at_bound in Hcur'. lia.
Qed.

(** C9.  For every random stream, every [num_players] in [2,6] and every valid
    player hand and community cards (at most 7 known cards), the dealing loop
    of a trial ends without reading outside the deck, having read the
    [current_card <= 17] cells [deck[0 .. current_card - 1]], all below
    [NUM_CARDS = 52]. *)
Theorem dealing_reads_at_most_17_cells
    player_hand community_cards num_players calls :
  valid_input player_hand community_cards ->
  2 <= num_players <= 6 ->
  exists opponent_hands current_card calls',
    trial rand player_hand community_cards num_players calls
    = Some (opponent_hands, current_card, calls') /\
    0 <= current_card <= 17 /\ current_card < NUM_CARDS.
Proof.
  intros (Hhand & Hcommunity & Hcards & _) Hplayers.
  destruct (trial_ok player_hand community_cards num_players calls)
    as (hands & cur & calls' & Hrun & _ & Hcur); try assumption.
  exists hands, cur, calls'. split; [exact Hrun|].
  split; [exact Hcur | unfold NUM_CARDS; lia].
Qed.

(** ** The simulation loop *)

Lemma simulate_ok player_hand community_cards num_players n wins losses calls :
  length player_hand = 2%nat -> (length community_cards <= 5)%nat ->
  Forall valid_card (player_hand ++ community_cards) ->
  2 <= num_players <= 6 ->
  exists wins' losses' calls',
    simulate rand player_hand community_cards num_players n wins losses calls
    = Some (wins', losses', calls') /\
    wins <= wins' /\ losses <= losses' /\
    wins' + losses' = wins + losses + Z.of_nat n.
Proof.
  intros Hhand Hcommunity Hcards Hplayers. revert wins losses calls.
  induction n as [|n IH]; intros wins losses calls.
  - exists wins, losses, calls. cbn [simulate]. split; [reflexivity | lia].
  - cbn [simulate].
    destruct (trial_ok player_hand community_cards num_players calls)
      as (hands & cur & calls1 & -> & _); try assumption.
    cbn [mbind option_bind].
    destruct (find_winning_opponent player_hand hands community_cards =? -1).
    + destruct (IH (wins + 1) losses calls1) as (w & l & c & -> & ?).
      exists w, l, c. split; [reflexivity | lia].
    + destruct (IH wins (losses + 1) calls1) as (w & l & c & -> & ?).
      exists w, l, c. split; [reflexivity | lia].
Qed.

(** C4.  For every random stream, every valid player hand and community
    cards and every [num_players] in [2,6], [calculate_win_probability] reads
    no cell outside an array and divides by no zero: the three counters sum
    to the fixed trial count 10000 and the result is
    [floor (100 * wins / (wins + losses + ties))], an integer in [0,100]
    (with [wins * 100] far below [2^31]). *)
Theorem win_probability_is_a_percentage
    player_hand community_cards num_players calls :
  valid_input player_hand community_cards ->
  2 <= num_players <= 6 ->
  exists wins losses ties,
    counters rand player_hand community_cards num_players calls
    = Some (wins, losses, ties) /\
    0 <= wins /\ 0 <= losses /\ 0 <= ties /\
    wins + losses + ties = MONTE_CARLO_SIMULATIONS /\
    wins * 100 < 2 ^ 31 /\
    calculate_win_probability rand player_hand community_cards num_players calls
    = Some (100 * wins / (wins + losses + ties)) /\
    0 <= 100 * wins / (wins + losses + ties) <= 100.
Proof.
  intros (Hhand & Hcommunity & Hcards & _) Hplayers.
  destruct (simulate_ok player_hand community_cards num_players
              (Z.to_nat MONTE_CARLO_SIMULATIONS) 0 0 calls)
    as (wins & losses & calls' & Hrun & Hw & Hl & Hsum); try assumption.
  rewrite Z2Nat.id in Hsum by (unfold MONTE_CARLO_SIMULATIONS; lia).
  exists wins, losses, 0.
  assert (counters rand player_hand community_cards num_players calls
          = Some (wins, losses, 0)) as Hcounters.
  { unfold counters. rewrite Hrun. reflexivity. }
  unfold calculate_win_probability. rewrite Hcounters. cbn [mbind option_bind].
  replace (wins + losses + 0) with MONTE_CARLO_SIMULATIONS by lia.
  unfold MONTE_CARLO_SIMULATIONS in *.
  change (10000 =? 0) with false. cbn iota.
  rewrite Z.quot_div_nonneg by lia.
  replace (wins * 100) with (100 * wins) by lia.
  repeat split; try lia.
  - apply Z.div_pos; lia.
  - apply Z.div_le_upper_bound; lia.
Qed.

End SimulatorProperties.

Lemma dealing_reads_at_most_17_cells_witness :
  exists opponent_hands current_card calls',
    trial (fun _ => 0) [mkCard 0 1; mkCard 0 2]
      [mkCard 5 0; mkCard 7 3; mkCard 12 2] 6 0
    = Some (opponent_hands, current_card, calls') /\
    0 <= current_card <= 17 /\ current_card < NUM_CARDS.
Proof.
  apply (dealing_reads_at_most_17_cells (fun _ => 0)).
  - intros n. lia.
  - apply (bool_decide_unpack _). vm_compute. exact I.
  - lia.
Defined.

Lemma win_probability_is_a_percentage_witness :
  exists wins losses ties,
    counters (fun _ => 0) [mkCard 12 0; mkCard 12 1] [] 2 0
    = Some (wins, losses, ties) /\
    0 <= wins /\ 0 <= losses /\ 0 <= ties /\
    wins + losses + ties = MONTE_CARLO_SIMULATIONS /\
    wins * 100 < 2 ^ 31 /\
    calculate_win_probability (fun _ => 0) [mkCard 12 0; mkCard 12 1] [] 2 0
    = Some (100 * wins / (wins + losses + ties)) /\
    0 <= 100 * wins / (wins + losses + ties) <= 100.
Proof.
  apply (win_probability_is_a_percentage (fun _ => 0)).
  - intros n. lia.
  - apply (bool_decide_unpack _). vm_compute. exact I.
  - lia.
Defined.

(** ** Known cards in the opponents' hands *)

(** C1 fails on the code.  The known cards are marked after the shuffle, at
    the index they had before it, so the marks land on other cards.  With
    [rand()] returning 0 at every call the shuffle rotates the deck by one
    ([deck[i]] holds card [i + 1]); the player holds 2d and 2c, the marks hit
    cells 1 and 2 (2c and 2s), and the opponent is dealt [deck[0]] = 2d, the
    player's first hole card, then skips two cells and takes 3h. *)
Theorem opponent_is_dealt_a_hole_card :
  trial (fun _ => 0) [mkCard 0 1; mkCard 0 2] [] 2 0
  = Some ([[mkCard 0 1; mkCard 1 0]], 4, 51%nat).
Proof. vm_compute. reflexivity. Qed.

(** * The deck: [initialize_deck], [shuffle_deck], [deal_cards] *)

(** ** initialize_deck *)

Lemma read_Some {A : Type} (a : list A) (i : Z) (x : A) :
  read a i = Some x <->
  0 <= i < Z.of_nat (length a) /\ a !! Z.to_nat i = Some x.
Proof.
  unfold read. destruct (Z.leb_spec 0 i) as [Hi|Hi].
  - split.
    + intros Hx. pose proof (lookup_lt_Some _ _ _ Hx). split; [lia | exact Hx].
    + intros [_ Hx]. exact Hx.
  - split; [discriminate | intros [? _]; lia].
Qed.

Lemma write_Some {A : Type} (a a' : list A) (i : Z) (x : A) :
  write a i x = Some a' <->
  0 <= i < Z.of_nat (length a) /\ a' = <[Z.to_nat i := x]> a.
Proof.
  unfold write.
  destruct (Z.leb_spec 0 i), (Z.ltb_spec i (Z.of_nat (length a))); simpl.
  - split; [intros Hw; injection Hw as <-; split; [lia | reflexivity]
           | intros [_ ->]; reflexivity].
  - split; [discriminate | intros [? _]; lia].
  - split; [discriminate | intros [? _]; lia].
  - split; [discriminate | intros [? _]; lia].
Qed.

Lemma initialize_deck_nodup : NoDup initialize_deck.
Proof. apply (bool_decide_unpack _). vm_compute. exact I. Qed.

Lemma initialize_deck_valid : Forall valid_card initialize_deck.
Proof. apply (bool_decide_unpack _). vm_compute. exact I. Qed.

Lemma initialize_deck_index c :
  valid_card c -> read initialize_deck (rank c * NUM_SUITS + suit c) = Some c.
Proof.
  assert (Forall (fun r => Forall (fun s =>
            read initialize_deck (r * NUM_SUITS + s) = Some (mkCard r s))
            (seqZ 0 NUM_SUITS)) (seqZ 0 NUM_RANKS)) as Hall
    by (apply (bool_decide_unpack _); vm_compute; exact I).
  destruct c as [r s]. intros [Hr Hs]. simpl in *.
  rewrite Forall_forall in Hall.
  assert (r ∈ seqZ 0 NUM_RANKS) as Hrin by (apply elem_of_seqZ; lia).
  specialize (Hall r Hrin). rewrite Forall_forall in Hall.
  apply Hall, elem_of_seqZ. lia.
Qed.

(** X5.  [initialize_deck] fills the deck with every card of the 52-card
    domain exactly once: the card of rank [r] and suit [s] sits at index
    [r * NUM_SUITS + s] (the index the simulator uses to mark it), the cells
    are pairwise distinct, and every cell is a card of the domain. *)
Theorem initialize_deck_layout :
  length initialize_deck = Z.to_nat NUM_CARDS /\
  NoDup initialize_deck /\
  (forall c, valid_card c ->
     read initialize_deck (rank c * NUM_SUITS + suit c) = Some c) /\
  (forall c, c ∈ initialize_deck -> valid_card c).
Proof.
  split; [reflexivity|]. split; [apply initialize_deck_nodup|].
  split; [apply initialize_deck_index|].
  apply Forall_forall, initialize_deck_valid.
Qed.

(** ** shuffle_deck *)

Lemma insert_cons_perm {A : Type} (l : list A) (j : nat) (x y : A) :
  l !! j = Some y -> y :: <[j := x]> l ≡ₚ x :: l.
Proof.
  revert j. induction l as [|b l IH]; intros j Hj; [discriminate|].
  destruct j as [|j]; simpl in *.
  - injection Hj as ->. apply Permutation_swap.
  - rewrite Permutation_swap. rewrite (IH j Hj). apply Permutation_swap.
Qed.

(** Exchanging two cells of an array keeps its contents. *)
Lemma swap_perm {A : Type} (l : list A) (i j : nat) (x y : A) :
  l !! i = Some x -> l !! j = Some y ->
  <[j := x]> (<[i := y]> l) ≡ₚ l.
Proof.
  revert i j. induction l as [|a l IH]; intros i j Hi Hj; [discriminate|].
  destruct i as [|i], j as [|j]; simpl in *.
  - injection Hi as ->. injection Hj as ->. reflexivity.
  - injection Hi as ->. by apply insert_cons_perm.
  - injection Hj as ->. by apply insert_cons_perm.
  - by rewrite (IH i j).
Qed.

Section Shuffle.

Context (rand : nat -> Z).

(** Whenever the shuffle loop runs to its end it has made one [rand()] call
    per step and permuted the cells. *)
Lemma shuffle_from_perm i deck calls deck' calls' :
  shuffle_from rand i deck calls = Some (deck', calls') ->
  deck' ≡ₚ deck /\ calls' = (calls + i)%nat.
Proof.
  revert deck calls. induction i as [|i IH]; intros deck calls Hrun.
  - simpl in Hrun. injection Hrun as <- <-. split; [reflexivity | lia].
  - cbn [shuffle_from] in Hrun.
    destruct (read deck (Z.of_nat (S i))) as [temp|] eqn:Htemp; [|discriminate].
    cbn [mbind option_bind] in Hrun.
    destruct (read deck _) as [dj|] eqn:Hdj in Hrun; [|discriminate].
    cbn [mbind option_bind] in Hrun.
    destruct (write deck _ dj) as [deck1|] eqn:Hw1; [|discriminate].
    cbn [mbind option_bind] in Hrun.
    destruct (write deck1 _ temp) as [deck2|] eqn:Hw2; [|discriminate].
    cbn [mbind option_bind] in Hrun.
    apply read_Some in Htemp as [_ Htemp]. apply read_Some in Hdj as [_ Hdj].
    apply write_Some in Hw1 as [_ ->]. apply write_Some in Hw2 as [_ ->].
    apply IH in Hrun as [Hperm ->]. split; [|lia].
    rewrite Hperm. by apply swap_perm.
Qed.

(** X6.  [shuffle_deck] on a deck of [NUM_CARDS] cells, with a [rand()] that
    returns non-negative values: every index stays inside the deck, exactly
    [NUM_CARDS - 1 = 51] calls of [rand()] are made, and the result is a
    permutation of the deck it was given. *)
Theorem shuffle_deck_permutes deck calls :
  (forall n, 0 <= rand n) ->
  length deck = Z.to_nat NUM_CARDS ->
  exists deck',
    shuffle_deck rand deck calls = Some (deck', (calls + 51)%nat) /\
    deck' ≡ₚ deck.
Proof.
  intros Hrand Hlen. unfold shuffle_deck.
  assert (exists deck' calls',
             shuffle_from rand (Z.to_nat (NUM_CARDS - 1)) deck calls
             = Some (deck', calls')) as (deck' & calls' & Hrun).
  { assert (Z.to_nat (NUM_CARDS - 1) < length deck)%nat as Hi
      by (rewrite Hlen; unfold NUM_CARDS; lia).
    revert Hi. generalize (Z.to_nat (NUM_CARDS - 1)). clear Hlen.
    intros i. revert deck calls. induction i as [|i IH]; intros deck calls Hi.
    - eexists _, _. reflexivity.
    - cbn [shuffle_from].
      set (j := Z.rem (rand calls) (Z.of_nat (S i) + 1)).
      assert (0 <= j < Z.of_nat (S i) + 1) as Hj
        by (apply Z.rem_bound_pos; [apply Hrand | lia]).
      destruct (read_in_range deck (Z.of_nat (S i))) as (temp & -> & _); [lia|].
      destruct (read_in_range deck j) as (dj & -> & _); [lia|].
      cbn [mbind option_bind].
      rewrite write_in_range by lia. cbn [mbind option_bind].
      rewrite write_in_range by (rewrite length_insert; lia).
      cbn [mbind option_bind]. apply IH. rewrite !length_insert. lia. }
  rewrite Hrun. apply shuffle_from_perm in Hrun as [Hperm ->].
  exists deck'. split; [reflexivity | exact Hperm].
Qed.

Lemma shuffled_deck_domain calls deck calls' :
  shuffle_deck rand initialize_deck calls = Some (deck, calls') ->
  NoDup deck /\ length deck = Z.to_nat NUM_CARDS /\
  forall c, c ∈ deck <-> valid_card c.
Proof.
  intros Hrun. apply shuffle_from_perm in Hrun as [Hperm _].
  split; [rewrite Hperm; apply initialize_deck_nodup|].
  split; [by rewrite Hperm|].
  intros c. rewrite Hperm. split.
  - apply Forall_forall, initialize_deck_valid.
  - intros Hc. pose proof (initialize_deck_index c Hc) as Hindex.
    apply read_Some in Hindex as [_ Hindex].
    by eapply list_elem_of_lookup_2.
Qed.

(** X7.  The deck invariant: a freshly initialised and shuffled deck holds
    every card of the 52-card domain exactly once, whatever [rand()]
    returned. *)
Theorem shuffled_deck_is_the_domain calls deck calls' :
  shuffle_deck rand initialize_deck calls = Some (deck, calls') ->
  NoDup deck /\ length deck = Z.to_nat NUM_CARDS /\
  forall c, c ∈ deck <-> valid_card c.
Proof. apply shuffled_deck_domain. Qed.

End Shuffle.

Lemma shuffle_deck_permutes_witness :
  exists deck',
    shuffle_deck (fun _ => 0) initialize_deck 0 = Some (deck', (0 + 51)%nat) /\
    deck' ≡ₚ initialize_deck.
Proof.
  apply (shuffle_deck_permutes (fun _ => 0) initialize_deck 0).
  - intros n. lia.
  - reflexivity.
Defined.

Lemma shuffled_deck_is_the_domain_witness :
  match shuffle_deck (fun _ => 0) initialize_deck 0 with
  | Some (deck, _) =>
      NoDup deck /\ length deck = Z.to_nat NUM_CARDS /\
      forall c, c ∈ deck <-> valid_card c
  | None => False
  end.
Proof.
  destruct (shuffle_deck (fun _ => 0) initialize_deck 0)
    as [[deck calls']|] eqn:Hrun.
  - exact (shuffled_deck_is_the_domain (fun _ => 0) 0 deck calls' Hrun).
  - vm_compute in Hrun. discriminate.
Defined.

(** ** deal_cards *)

Lemma deal_from_slice deck current_card size :
  0 <= current_card ->
  current_card + Z.of_nat size <= Z.of_nat (length deck) ->
  deal_from deck current_card size
  = Some (take size (drop (Z.to_nat current_card) deck),
          current_card + Z.of_nat size).
Proof.
  revert current_card. induction size as [|n IH]; intros cur Hcur Hend.
  - simpl. rewrite take_0. do 2 f_equal. lia.
  - cbn [deal_from].
    destruct (read_in_range deck cur) as (c & Hread & _); [lia|].
    rewrite Hread. cbn [mbind option_bind].
    rewrite IH by lia. cbn [mbind option_bind].
    apply read_Some in Hread as [_ Hc].
    rewrite (drop_S _ c _ Hc). cbn [take].
    replace (Z.to_nat (cur + 1)) with (S (Z.to_nat cur)) by lia.
    do 2 f_equal. lia.
Qed.

(** X8.  [deal_cards] inside the deck hands out the [size] cells that follow
    the cursor, in deck order, and moves the cursor past them. *)
Theorem deal_cards_slice deck current_card size :
  0 <= current_card -> 0 <= size ->
  current_card + size <= Z.of_nat (length deck) ->
  deal_cards deck current_card size
  = Some (take (Z.to_nat size) (drop (Z.to_nat current_card) deck),
          current_card + size).
Proof.
  intros Hcur Hsize Hend. unfold deal_cards.
  rewrite deal_from_slice by lia. do 2 f_equal. lia.
Qed.

Lemma deal_cards_slice_witness :
  deal_cards initialize_deck 4 3
  = Some (take (Z.to_nat 3) (drop (Z.to_nat 4) initialize_deck), 4 + 3).
Proof.
  apply deal_cards_slice; [lia | lia | vm_compute; discriminate].
Defined.

(** X9.  [deal_cards] has no bounds check of its own: asked for more cells
    than are left after the cursor (or started at a negative cursor), it
    reads outside the deck. *)
Theorem deal_cards_past_the_deck deck current_card size :
  0 < size ->
  current_card < 0 \/ Z.of_nat (length deck) < current_card + size ->
  deal_cards deck current_card size = None.
Proof.
  intros Hsize Hout. unfold deal_cards.
  assert (current_card < 0 \/
          Z.of_nat (length deck) < current_card + Z.of_nat (Z.to_nat size))
    as Hout' by lia.
  assert (0 < Z.to_nat size)%nat as Hpos by lia.
  clear Hout Hsize. revert current_card Hout' Hpos.
  induction (Z.to_nat size) as [|n IH]; intros cur Hout Hpos; [lia|].
  cbn [deal_from].
  destruct (read deck cur) as [c|] eqn:Hread; [|reflexivity].
  cbn [mbind option_bind]. apply read_Some in Hread as [Hcur _].
  destruct n as [|n]; [lia|].
  rewrite IH by lia. reflexivity.
Qed.

Lemma deal_cards_past_the_deck_witness :
  deal_cards initialize_deck 50 3 = None.
Proof.
  apply deal_cards_past_the_deck; [lia | right; vm_compute; reflexivity].
Defined.

(** X10.  Dealing [m] cells and then [n] more from where the cursor stopped
    is dealing [m + n] cells at once, failures included. *)
Theorem deal_cards_twice deck current_card m n :
  0 <= m -> 0 <= n ->
  ('(hand1, cursor) ← deal_cards deck current_card m;
   '(hand2, cursor) ← deal_cards deck cursor n;
   Some (hand1 ++ hand2, cursor))
  = deal_cards deck current_card (m + n).
Proof.
  intros Hm Hn. unfold deal_cards.
  replace (Z.to_nat (m + n)) with (Z.to_nat m + Z.to_nat n)%nat by lia.
  generalize (Z.to_nat m) (Z.to_nat n). clear. intros m n.
  revert current_card. induction m as [|m IH]; intros cur.
  - cbn [deal_from mbind option_bind Nat.add].
    destruct (deal_from deck cur n) as [[hand cursor]|]; reflexivity.
  - cbn [deal_from Nat.add].
    destruct (read deck cur) as [c|]; [|reflexivity].
    cbn [mbind option_bind]. rewrite <- IH.
    destruct (deal_from deck (cur + 1) m) as [[hand1 cursor1]|]; [|reflexivity].
    cbn [mbind option_bind].
    destruct (deal_from deck cursor1 n) as [[hand2 cursor2]|]; reflexivity.
Qed.

Lemma deal_cards_twice_witness :
  ('(hand1, cursor) ← deal_cards initialize_deck 0 2;
   '(hand2, cursor) ← deal_cards initialize_deck cursor 3;
   Some (hand1 ++ hand2, cursor))
  = deal_cards initialize_deck 0 (2 + 3).
Proof. apply deal_cards_twice; lia. Defined.

(** * Dealing to the opponents *)

(** ** The do-while loop *)

Lemma next_available_Some unread current_card c current_card' :
  next_available unread current_card = Some (c, current_card') ->
  exists k : nat,
    current_card' = current_card + Z.of_nat k + 1 /\
    unread !! k = Some c /\ unmarked c /\
    (forall j d, (j < k)%nat -> unread !! j = Some d -> rank d = -1) /\
    filter unmarked unread = c :: filter unmarked (drop (S k) unread).
Proof.
  revert current_card. induction unread as [|d unread IH]; intros cur Hrun;
    [discriminate|].
  cbn [next_available] in Hrun.
  destruct (Z.eqb_spec (rank d) (-1)) as [Hd|Hd].
  - apply IH in Hrun as (k & -> & Hk & Hc & Hskip & Hfilter).
    exists (S k). split; [lia|]. split; [exact Hk|]. split; [exact Hc|]. split.
    + intros j e Hj He. destruct j as [|j]; [by injection He as <-|].
      apply (Hskip j e); [lia | exact He].
    + rewrite filter_cons_False by (unfold unmarked; intros Hne; by apply Hne).
      exact Hfilter.
  - injection Hrun as <- <-. exists 0%nat.
    split; [lia|]. split; [reflexivity|]. split; [exact Hd|]. split; [lia|].
    by rewrite filter_cons_True.
Qed.

Lemma next_available_None unread current_card :
  next_available unread current_card = None <->
  Forall (fun c => rank c = -1) unread.
Proof.
  revert current_card. induction unread as [|d unread IH]; intros cur.
  - split; [constructor | reflexivity].
  - cbn [next_available]. destruct (Z.eqb_spec (rank d) (-1)) as [Hd|Hd].
    + rewrite IH. split; [by constructor | by inversion 1].
    + split; [discriminate | inversion 1; contradiction].
Qed.

(** X11.  One pass of the [do ... while (rank == -1)] loop hands out the first
    cell at or after [current_card] whose rank is not -1: every cell it
    stepped over has rank -1, and the cursor ends just past the cell handed
    out. *)
Theorem deal_one_first_available deck current_card c current_card' :
  deal_one deck current_card = Some (c, current_card') ->
  0 <= current_card < current_card' /\
  current_card' <= Z.of_nat (length deck) /\
  read deck (current_card' - 1) = Some c /\ rank c <> -1 /\
  forall k, current_card <= k < current_card' - 1 ->
            exists d, read deck k = Some d /\ rank d = -1.
Proof.
  unfold deal_one. destruct (Z.leb_spec 0 current_card) as [Hcur|]; [|discriminate].
  intros Hrun. apply next_available_Some in Hrun as (k & -> & Hk & Hc & Hskip & _).
  rewrite lookup_drop in Hk. pose proof (lookup_lt_Some _ _ _ Hk) as Hlt.
  split; [lia|]. split; [lia|]. split; [|split; [exact Hc|]].
  - apply read_Some. split; [lia|]. rewrite <- Hk. f_equal. lia.
  - intros i Hi.
    destruct (lookup_lt_is_Some_2 deck (Z.to_nat i)) as [d Hd]; [lia|].
    exists d. split; [apply read_Some; split; [lia | exact Hd]|].
    apply (Hskip (Z.to_nat i - Z.to_nat current_card)%nat d); [lia|].
    rewrite lookup_drop, <- Hd. f_equal. lia.
Qed.

Lemma deal_one_first_available_witness :
  0 <= 1 < 3 /\ 3 <= Z.of_nat (length [mkCard 4 0; mkCard (-1) 1; mkCard 7 2]) /\
  read [mkCard 4 0; mkCard (-1) 1; mkCard 7 2] (3 - 1) = Some (mkCard 7 2) /\
  rank (mkCard 7 2) <> -1 /\
  forall k, 1 <= k < 3 - 1 ->
            exists d, read [mkCard 4 0; mkCard (-1) 1; mkCard 7 2] k = Some d /\
                      rank d = -1.
Proof.
  apply (deal_one_first_available
           [mkCard 4 0; mkCard (-1) 1; mkCard 7 2] 1 (mkCard 7 2) 3).
  vm_compute. reflexivity.
Defined.

(** X12.  The loop runs off the end of the deck exactly when no cell from the
    cursor on has a rank other than -1. *)
Theorem deal_one_exhausted deck current_card :
  0 <= current_card ->
  (deal_one deck current_card = None <->
   Forall (fun c => rank c = -1) (drop (Z.to_nat current_card) deck)).
Proof.
  intros Hcur. unfold deal_one.
  destruct (Z.leb_spec 0 current_card); [|lia]. apply next_available_None.
Qed.

Lemma deal_one_exhausted_witness :
  deal_one [mkCard 4 0; mkCard (-1) 1; mkCard (-1) 2] 1 = None <->
  Forall (fun c => rank c = -1)
         (drop (Z.to_nat 1) [mkCard 4 0; mkCard (-1) 1; mkCard (-1) 2]).
Proof. apply deal_one_exhausted. lia. Defined.

(** ** The opponents' hands *)

Lemma deal_one_filter deck current_card c current_card' :
  deal_one deck current_card = Some (c, current_card') ->
  0 <= current_card < current_card' /\
  filter unmarked (drop (Z.to_nat current_card) deck)
  = c :: filter unmarked (drop (Z.to_nat current_card') deck).
Proof.
  unfold deal_one. destruct (Z.leb_spec 0 current_card) as [Hcur|]; [|discriminate].
  intros Hrun. apply next_available_Some in Hrun as (k & -> & _ & _ & _ & Hfilter).
  split; [lia|]. rewrite Hfilter, drop_drop.
  replace (Z.to_nat current_card + S k)%nat
    with (Z.to_nat (current_card + Z.of_nat k + 1)) by lia.
  reflexivity.
Qed.

Lemma deal_opponents_filter n deck current_card hands current_card' :
  deal_opponents n deck current_card = Some (hands, current_card') ->
  length hands = n /\ Forall (fun hand => length hand = 2%nat) hands /\
  concat hands
  = take (2 * n) (filter unmarked (drop (Z.to_nat current_card) deck)) /\
  length (concat hands) = (2 * n)%nat.
Proof.
  revert current_card hands current_card'.
  induction n as [|n IH]; intros cur hands cur' Hrun.
  - simpl in Hrun. injection Hrun as <- <-. simpl. repeat split. constructor.
  - cbn [deal_opponents] in Hrun.
    destruct (deal_one deck cur) as [[c0 cur0]|] eqn:H0; [|discriminate].
    cbn [mbind option_bind] in Hrun.
    destruct (deal_one deck cur0) as [[c1 cur1]|] eqn:H1; [|discriminate].
    cbn [mbind option_bind] in Hrun.
    destruct (deal_opponents n deck cur1) as [[rest cur2]|] eqn:H2; [|discriminate].
    cbn [mbind option_bind] in Hrun. injection Hrun as <- <-.
    apply deal_one_filter in H0 as [_ ->]. apply deal_one_filter in H1 as [_ ->].
    apply IH in H2 as (Hlen & Hall & Hcat & Hlencat).
    split; [simpl; lia|]. split; [by constructor|].
    replace (2 * S n)%nat with (S (S (2 * n))) by lia.
    cbn [concat app take length]. rewrite Hcat, <- Hcat, Hlencat.
    split; [reflexivity | lia].
Qed.

(** X13.  The dealing loop gives the opponents the first
    [2 * num_opponents] cells of the deck (from the cursor on) whose rank is
    not -1, in deck order, two per hand. *)
Theorem deal_opponents_first_available n deck current_card hands current_card' :
  deal_opponents n deck current_card = Some (hands, current_card') ->
  length hands = n /\ Forall (fun hand => length hand = 2%nat) hands /\
  concat hands
  = take (2 * n) (filter unmarked (drop (Z.to_nat current_card) deck)) /\
  length (concat hands) = (2 * n)%nat.
Proof. apply deal_opponents_filter. Qed.

Lemma deal_opponents_first_available_witness :
  length [[mkCard 4 0; mkCard 7 2]] = 1%nat /\
  Forall (fun hand => length hand = 2%nat) [[mkCard 4 0; mkCard 7 2]] /\
  concat [[mkCard 4 0; mkCard 7 2]]
  = take (2 * 1)
      (filter unmarked
         (drop (Z.to_nat 0) [mkCard 4 0; mkCard (-1) 1; mkCard 7 2; mkCard 8 3])) /\
  length (concat [[mkCard 4 0; mkCard 7 2]]) = (2 * 1)%nat.
Proof.
  apply (deal_opponents_first_available 1
           [mkCard 4 0; mkCard (-1) 1; mkCard 7 2; mkCard 8 3] 0
           [[mkCard 4 0; mkCard 7 2]] 3).
  vm_compute. reflexivity.
Defined.

(** ** Marking *)

Lemma mark_Some deck c deck' :
  mark deck c = Some deck' ->
  exists old,
    read deck (rank c * NUM_SUITS + suit c) = Some old /\
    deck' = <[Z.to_nat (rank c * NUM_SUITS + suit c) := mkCard (-1) (suit old)]> deck.
Proof.
  unfold mark. cbv zeta. intros Hrun.
  destruct (read deck _) as [old|] eqn:Hread; [|discriminate].
  cbn [mbind option_bind] in Hrun. apply write_Some in Hrun as [_ ->].
  by exists old.
Qed.

(** X14.  Marking card [c] withdraws whichever card is stored at index
    [c.rank * NUM_SUITS + c.suit]: in a deck without duplicates that card
    ([old]) is gone afterwards and every other card is still there.  It is
    [c] itself only when [c] sits at that index, as in an unshuffled deck. *)
Theorem mark_withdraws_the_cell deck c old :
  NoDup deck ->
  read deck (rank c * NUM_SUITS + suit c) = Some old ->
  rank old <> (-1) ->
  exists deck',
    mark deck c = Some deck' /\ length deck' = length deck /\
    (old ∉ deck') /\ forall d, d ∈ deck -> d <> old -> d ∈ deck'.
Proof.
  intros Hnodup Hread Hold. unfold mark. cbv zeta. rewrite Hread.
  cbn [mbind option_bind]. apply read_Some in Hread as [Hrange Hcell].
  rewrite write_in_range by exact Hrange.
  eexists. split; [reflexivity|]. split; [apply length_insert|]. split.
  - intros Hin. apply list_elem_of_lookup in Hin as [j Hj].
    apply list_lookup_insert_Some in Hj as [(_ & Heq & _)|[Hne Hj]].
    + rewrite <- Heq in Hold. simpl in Hold. lia.
    + apply Hne. by eapply NoDup_lookup.
  - intros d Hd Hne. apply list_elem_of_lookup in Hd as [j Hj].
    apply list_elem_of_lookup. exists j.
    rewrite list_lookup_insert_ne; [exact Hj|].
    intros <-. rewrite Hcell in Hj. injection Hj as ->. by apply Hne.
Qed.

Lemma mark_withdraws_the_cell_witness :
  exists deck',
    mark initialize_deck (mkCard 3 2) = Some deck' /\
    length deck' = length initialize_deck /\
    (mkCard 3 2 ∉ deck') /\
    forall d, d ∈ initialize_deck -> d <> mkCard 3 2 -> d ∈ deck'.
Proof.
  apply (mark_withdraws_the_cell initialize_deck (mkCard 3 2) (mkCard 3 2)).
  - apply (bool_decide_unpack _). vm_compute. exact I.
  - vm_compute. reflexivity.
  - vm_compute. discriminate.
Defined.

Lemma filter_insert_marked (l : list Card) (i : nat) (m : Card) :
  ~ unmarked m ->
  filter unmarked (<[i := m]> l) `sublist_of` filter unmarked l.
Proof.
  intros Hm. revert i. induction l as [|a l IH]; intros i; [reflexivity|].
  destruct i as [|i]; simpl.
  - rewrite filter_cons_False by exact Hm. rewrite filter_cons.
    destruct (decide (unmarked a)); [by apply sublist_cons | reflexivity].
  - rewrite !filter_cons. destruct (decide (unmarked a)).
    + by apply sublist_skip.
    + apply IH.
Qed.

Lemma mark_all_sublist cards deck deck' :
  mark_all cards deck = Some deck' ->
  filter unmarked deck' `sublist_of` filter unmarked deck.
Proof.
  revert deck. induction cards as [|c rest IH]; intros deck Hrun.
  - simpl in Hrun. by injection Hrun as <-.
  - cbn [mark_all] in Hrun.
    destruct (mark deck c) as [deck1|] eqn:Hmark; [|discriminate].
    cbn [mbind option_bind] in Hrun. apply IH in Hrun.
    apply mark_Some in Hmark as (old & _ & ->).
    etrans; [exact Hrun|]. apply filter_insert_marked.
    unfold unmarked. simpl. lia.
Qed.

(** ** What the opponents hold *)

Section Opponents.

Context (rand : nat -> Z).

(** X15.  Wherever the marks land, the cards dealt to the opponents in one
    trial are pairwise distinct cards of the 52-card domain (never a cell of
    rank -1), two for each of the [num_players - 1] opponents. *)
Theorem trial_opponents_distinct
    player_hand community_cards num_players calls opponent_hands current_card calls' :
  trial rand player_hand community_cards num_players calls
  = Some (opponent_hands, current_card, calls') ->
  length opponent_hands = Z.to_nat (num_players - 1) /\
  Forall (fun hand => length hand = 2%nat) opponent_hands /\
  NoDup (concat opponent_hands) /\
  Forall valid_card (concat opponent_hands).
Proof.
  unfold trial. intros Hrun.
  destruct (shuffle_deck rand initialize_deck calls) as [[deck0 calls0]|] eqn:Hshuffle;
    [|discriminate].
  cbn [mbind option_bind] in Hrun.
  destruct (mark_all player_hand deck0) as [deck1|] eqn:Hmark1; [|discriminate].
  cbn [mbind option_bind] in Hrun.
  destruct (mark_all community_cards deck1) as [deck2|] eqn:Hmark2; [|discriminate].
  cbn [mbind option_bind] in Hrun.
  destruct (deal_opponents _ deck2 0) as [[hands cur]|] eqn:Hdeal; [|discriminate].
  cbn [mbind option_bind] in Hrun. injection Hrun as <- <- <-.
  apply shuffled_deck_domain in Hshuffle as (Hnodup & _ & Hdomain).
  apply mark_all_sublist in Hmark1. apply mark_all_sublist in Hmark2.
  apply deal_opponents_filter in Hdeal as (Hlen & Hall & Hcat & _).
  assert (concat hands `sublist_of` deck0) as Hsub.
  { rewrite Hcat. change (Z.to_nat 0) with 0%nat. rewrite drop_0.
    etrans; [apply sublist_take|]. etrans; [exact Hmark2|].
    etrans; [exact Hmark1|]. apply sublist_filter. }
  split; [exact Hlen|]. split; [exact Hall|].
  split; [by eapply sublist_NoDup|].
  apply Forall_forall. intros c Hc. apply Hdomain.
  by eapply elem_of_sublist.
Qed.

End Opponents.

Lemma trial_opponents_distinct_witness :
  length [[mkCard 0 1; mkCard 1 0]] = Z.to_nat (2 - 1) /\
  Forall (fun hand => length hand = 2%nat) [[mkCard 0 1; mkCard 1 0]] /\
  NoDup (concat [[mkCard 0 1; mkCard 1 0]]) /\
  Forall valid_card (concat [[mkCard 0 1; mkCard 1 0]]).
Proof.
  apply (trial_opponents_distinct (fun _ => 0) [mkCard 0 1; mkCard 0 2] [] 2 0
           [[mkCard 0 1; mkCard 1 0]] 4 51%nat).
  vm_compute. reflexivity.
Defined.

(** * The categories of [evaluate_hand] *)

(** ** The three rank loops *)

Lemma for_each_app {S R : Type} (body : S -> Z -> flow S R) l1 l2 s :
  for_each body (l1 ++ l2) s
  = match for_each body l1 s with
    | Next s' => for_each body l2 s'
    | Return r => Return r
    end.
Proof.
  revert s. induction l1 as [|i l1 IH]; intros s; [reflexivity|].
  simpl. destruct (body s i); [apply IH | reflexivity].
Qed.

Lemma none_with_S rc c n :
  0 <= n -> none_with rc c n -> rc n <> c -> none_with rc c (n + 1).
Proof.
  intros Hn Hnone Hrc r Hr. destruct (decide (r = n)) as [->|]; [exact Hrc|].
  apply Hnone. lia.
Qed.

Lemma is_max_with_S rc c n t :
  is_max_with rc c n t -> rc n <> c -> is_max_with rc c (n + 1) t.
Proof.
  intros (Ht & Hc & Hmax) Hrc. split; [lia|]. split; [exact Hc|].
  intros r Hr. destruct (decide (r = n)) as [->|]; [exact Hrc|].
  apply Hmax. lia.
Qed.

Lemma is_max_with_last rc c n :
  0 <= n -> rc n = c -> is_max_with rc c (n + 1) n.
Proof. intros Hn Hc. split; [lia|]. split; [exact Hc|]. intros r Hr. lia. Qed.

(** The multiple-of-a-kind loop over the ranks below [m]. *)
Lemma kind_scan_prefix rc top (m : nat) :
  match for_each (kind_step rc) (seqZ 0 (Z.of_nat m))
          (false, false, mkEval 0 top (-1)) with
  | Return e =>
      exists q s, e = mkEval 8 q s /\ 0 <= q < Z.of_nat m /\ rc q = 4 /\
                  none_with rc 4 q /\ best_pair rc q s
  | Next (has_three, has_pair, eval) =>
      none_with rc 4 (Z.of_nat m) /\ combination_level eval = 0 /\
      (if has_three then is_max_with rc 3 (Z.of_nat m) (highest_card eval)
       else none_with rc 3 (Z.of_nat m) /\ highest_card eval = top) /\
      (if has_pair then is_max_with rc 2 (Z.of_nat m) (second_highest_card eval)
       else none_with rc 2 (Z.of_nat m) /\ second_highest_card eval = -1)
  end.
Proof.
  induction m as [|m IH].
  - simpl. repeat split; intros r Hr; lia.
  - rewrite seqZ_S, for_each_app. rewrite Z.add_0_l.
    replace (Z.of_nat (S m)) with (Z.of_nat m + 1) by lia.
    destruct (for_each (kind_step rc) (seqZ 0 (Z.of_nat m)) _)
      as [[[has_three has_pair] [l h s]]|e].
    + destruct IH as (H4 & Hl & H3 & H2). simpl in Hl, H3, H2. subst l.
      cbn [for_each]. unfold kind_step.
      cbn [second_highest_card highest_card combination_level
           set_level set_highest set_second].
      destruct (Z.eqb_spec (rc (Z.of_nat m)) 4) as [Hq|Hq].
      { exists (Z.of_nat m), s. split; [reflexivity|]. split; [lia|].
        split; [exact Hq|]. split; [exact H4|].
        destruct has_pair; [by right | left; exact H2]. }
      assert (none_with rc 4 (Z.of_nat m + 1)) as H4'
        by (apply none_with_S; [lia | exact H4 | exact Hq]).
      destruct (Z.eqb_spec (rc (Z.of_nat m)) 3) as [Ht|Ht].
      { unfold set_highest, set_second, set_level; simpl.
        split; [exact H4'|]. split; [reflexivity|].
        split; [apply is_max_with_last; [lia | exact Ht]|].
        destruct has_pair.
        - apply is_max_with_S; [exact H2 | lia].
        - destruct H2 as [H2 ->]. split; [|reflexivity].
          apply none_with_S; [lia | exact H2 | lia]. }
      destruct (Z.eqb_spec (rc (Z.of_nat m)) 2) as [Hp|Hp].
      { assert ((s =? -1) || (s <? Z.of_nat m) = true) as ->.
        { destruct has_pair.
          - destruct H2 as (Hs & _). apply orb_true_iff. right.
            apply Z.ltb_lt. lia.
          - destruct H2 as [_ ->]. reflexivity. }
        unfold set_highest, set_second, set_level; simpl.
        split; [exact H4'|]. split; [reflexivity|]. split.
        - destruct has_three.
          + apply is_max_with_S; [exact H3 | lia].
          + destruct H3 as [H3 ->]. split; [|reflexivity].
            apply none_with_S; [lia | exact H3 | lia].
        - apply is_max_with_last; [lia | exact Hp]. }
      unfold set_highest, set_second, set_level; simpl.
      split; [exact H4'|]. split; [reflexivity|]. split.
      * destruct has_three.
        -- apply is_max_with_S; [exact H3 | exact Ht].
        -- destruct H3 as [H3 ->]. split; [|reflexivity].
           apply none_with_S; [lia | exact H3 | exact Ht].
      * destruct has_pair.
        -- apply is_max_with_S; [exact H2 | exact Hp].
        -- destruct H2 as [H2 ->]. split; [|reflexivity].
           apply none_with_S; [lia | exact H2 | exact Hp].
    + destruct IH as (q & s & -> & Hq & Hrc & H4 & H2).
      exists q, s. split; [reflexivity|]. split; [lia|]. by repeat split.
Qed.

(** The straight loop over the ranks below [n], entered with the [k] ranks
    just above them present. *)
Lemma straight_scan_spec rc eval (n : nat) k :
  0 <= k < 5 ->
  (forall j, Z.of_nat n <= j < Z.of_nat n + k -> 0 < rc j) ->
  match for_each (straight_step rc eval) (reverse (seqZ 0 (Z.of_nat n))) k with
  | Return e =>
      exists i, e = set_highest (set_level eval 4) (i + 4) /\
                0 <= i /\ i + 5 <= Z.of_nat n + k /\ run_at rc i /\
                forall i', i < i' -> i' + 5 <= Z.of_nat n + k -> ~ run_at rc i'
  | Next _ =>
      forall i, 0 <= i -> i + 5 <= Z.of_nat n + k -> ~ run_at rc i
  end.
Proof.
  revert k. induction n as [|n IH]; intros k Hk Habove.
  - simpl. intros i Hi Hend. lia.
  - rewrite seqZ_S, reverse_snoc, Z.add_0_l. cbn [for_each].
    unfold straight_step at 1.
    destruct (Z.ltb_spec 0 (rc (Z.of_nat n))) as [Hpresent|Habsent].
    + destruct (Z.leb_spec 5 (k + 1)) as [Hfive|Hfew].
      * exists (Z.of_nat n). split; [reflexivity|]. split; [lia|].
        split; [lia|]. split.
        -- intros j Hj. destruct (decide (j = Z.of_nat n)) as [->|];
             [exact Hpresent | apply Habove; lia].
        -- intros i' Hi' Hend. lia.
      * specialize (IH (k + 1)).
        destruct (for_each _ _ (k + 1)) as [k'|e].
        -- intros i Hi Hend. apply IH; try lia.
           intros j Hj. destruct (decide (j = Z.of_nat n)) as [->|];
             [exact Hpresent | apply Habove; lia].
        -- destruct IH as (i & -> & Hi & Hend & Hrun & Hmax); [lia| |].
           { intros j Hj. destruct (decide (j = Z.of_nat n)) as [->|];
               [exact Hpresent | apply Habove; lia]. }
           exists i. split; [reflexivity|]. split; [lia|]. split; [lia|].
           split; [exact Hrun|]. intros i' Hi' Hend'. apply Hmax; lia.
    + assert (forall i, i <= Z.of_nat n -> Z.of_nat n < i + 5 -> ~ run_at rc i)
        as Hcut.
      { intros i Hlo Hhi Hrun. specialize (Hrun (Z.of_nat n)). lia. }
      specialize (IH 0).
      destruct (for_each _ _ 0) as [k'|e].
      * intros i Hi Hend.
        destruct (Z.le_gt_cases (i + 5) (Z.of_nat n)) as [Hin|Hout].
        -- apply IH; lia.
        -- apply Hcut; lia.
      * destruct IH as (i & -> & Hi & Hend & Hrun & Hmax); [lia | intros j Hj; lia |].
        exists i. split; [reflexivity|]. split; [lia|]. split; [lia|].
        split; [exact Hrun|]. intros i' Hi' Hend'.
        destruct (Z.le_gt_cases (i' + 5) (Z.of_nat n)) as [Hin|Hout].
        -- apply Hmax; lia.
        -- apply Hcut; lia.
Qed.

(** The pair loop counts the paired ranks and leaves the evaluation alone
    when no paired rank exceeds the two ranks it already holds. *)
Lemma pair_scan_count rc eval indices pairs :
  (forall i, i ∈ indices -> rc i = 2 ->
             i <= highest_card eval /\ i <= second_highest_card eval) ->
  fold_left (pair_step rc) indices (pairs, eval)
  = (pairs + Z.of_nat (length (List.filter (fun r => rc r =? 2) indices)), eval).
Proof.
  revert pairs. induction indices as [|i rest IH]; intros pairs Hle.
  - simpl. f_equal. lia.
  - cbn [fold_left List.filter]. unfold pair_step at 2.
    destruct (Z.eqb_spec (rc i) 2) as [Hp|Hp].
    + destruct (Hle i) as [Hh Hs]; [left | exact Hp |].
      destruct (Z.ltb_spec (highest_card eval) i); [lia|].
      destruct (Z.ltb_spec (second_highest_card eval) i); [lia|].
      rewrite IH by (intros j Hj; apply Hle; by right).
      f_equal. simpl. lia.
    + rewrite IH by (intros j Hj; apply Hle; by right). reflexivity.
Qed.

Lemma no_flush_of_test (sc : Z -> Z) :
  existsb (fun i => 5 <=? sc i) (seqZ 0 NUM_SUITS) = false -> no_flush sc.
Proof.
  intros Htest s Hs. destruct (Z.lt_ge_cases (sc s) 5) as [|Hge]; [assumption|].
  assert (existsb (fun i => 5 <=? sc i) (seqZ 0 NUM_SUITS) = true) as Htrue.
  { apply existsb_exists. exists s. split; [|by apply Z.leb_le].
    apply list_elem_of_In, elem_of_seqZ. lia. }
  congruence.
Qed.

Lemma pairs_of_pos rc p :
  0 <= p < NUM_RANKS -> rc p = 2 -> 1 <= pairs_of rc.
Proof.
  intros Hp Hrc. unfold pairs_of.
  assert (In p (List.filter (fun r => rc r =? 2) (seqZ 0 NUM_RANKS))) as Hin.
  { apply filter_In. split; [|by apply Z.eqb_eq].
    apply list_elem_of_In, elem_of_seqZ. lia. }
  destruct (List.filter _ _); [destruct Hin | simpl; lia].
Qed.

Lemma pairs_of_none rc : none_with rc 2 NUM_RANKS -> pairs_of rc = 0.
Proof.
  intros Hnone. unfold pairs_of.
  destruct (List.filter _ _) as [|p rest] eqn:Hfilter; [reflexivity|].
  assert (In p (List.filter (fun r => rc r =? 2) (seqZ 0 NUM_RANKS))) as Hin
    by (rewrite Hfilter; by left).
  apply filter_In in Hin as [Hin Hrc]. apply Z.eqb_eq in Hrc.
  apply list_elem_of_In, elem_of_seqZ in Hin. exfalso. apply (Hnone p); [lia | exact Hrc].
Qed.

(** What [classify] returns on an array whose first rank bounds every rank
    present. *)
Lemma classify_cases all_cards :
  (forall i, 0 < rank_count all_cards i -> i <= top_rank all_cards) ->
  hand_case (rank_count all_cards) (suit_count all_cards) (top_rank all_cards)
    (classify all_cards).
Proof.
  intros Htop. unfold classify. cbv zeta.
  set (rc := rank_count all_cards) in *. set (sc := suit_count all_cards).
  set (top := top_rank all_cards) in *.
  destruct (existsb _ _) eqn:Hflush.
  { apply existsb_exists in Hflush as (s & Hs & Hcount).
    apply list_elem_of_In, elem_of_seqZ in Hs. apply Z.leb_le in Hcount.
    apply (case_flush rc sc top s); [lia | exact Hcount]. }
  apply no_flush_of_test in Hflush.
  pose proof (kind_scan_prefix rc top 13) as Hkind.
  change (Z.of_nat 13) with NUM_RANKS in Hkind.
  destruct (for_each (kind_step rc) _ _) as [[[has_three has_pair] [l h s]]|e].
  2:{ destruct Hkind as (q & s & -> & Hq & Hrc & H4 & H2). by apply case_four. }
  destruct Hkind as (H4 & Hl & H3 & H2). simpl in Hl, H3, H2. subst l.
  destruct has_three; cbn [andb].
  { destruct has_pair; cbn [andb].
    - by apply case_full_house.
    - destruct H2 as [H2 ->]. by apply case_three. }
  destruct H3 as [H3 ->].
  assert (best_pair rc NUM_RANKS s) as Hbest
    by (destruct has_pair; [by right | by left]).
  pose proof (straight_scan_spec rc (mkEval 0 top s) 13 0) as Hstraight.
  change (Z.of_nat 13) with NUM_RANKS in Hstraight.
  destruct (for_each (straight_step rc _) _ _) as [k|e].
  2:{ destruct Hstraight as (i & -> & Hi & Hend & Hrun & Hmax);
        [lia | intros j Hj; lia |].
      apply case_straight; try assumption.
      split; [unfold NUM_RANKS in *; lia|]. split; [exact Hrun|].
      intros i' Hi'. apply Hmax; unfold NUM_RANKS in *; lia. }
  assert (no_run rc) as Hnorun.
  { intros i Hi. apply Hstraight; [lia | intros j Hj; lia | lia |].
    unfold NUM_RANKS in *. lia. }
  rewrite pair_scan_count.
  2:{ intros i Hi Hrc. apply elem_of_seqZ in Hi. simpl. split.
      - apply Htop. lia.
      - destruct has_pair.
        + destruct H2 as (_ & _ & Hmax).
          destruct (Z.le_gt_cases i s) as [|Hgt]; [assumption|].
          exfalso. apply (Hmax i); [lia | exact Hrc].
        + destruct H2 as [H2 _]. exfalso. apply (H2 i); [lia | exact Hrc]. }
  fold (pairs_of rc). rewrite Z.add_0_l.
  destruct has_pair.
  - pose proof H2 as (Hp & Hrc & _).
    pose proof (pairs_of_pos rc s Hp Hrc) as Hpos.
    pose proof (case_pairs rc sc top s Hflush H4 H3 Hnorun H2) as Hcase.
    revert Hcase. destruct (Z.leb_spec 2 (pairs_of rc)); [by intros Hcase|].
    destruct (Z.eqb_spec (pairs_of rc) 1); [by intros Hcase | lia].
  - destruct H2 as [H2 ->]. rewrite (pairs_of_none rc H2). simpl.
    by apply case_high.
Qed.

(** ** Uniqueness of what the categories name *)

Lemma is_max_with_unique rc c n t t' :
  is_max_with rc c n t -> is_max_with rc c n t' -> t = t'.
Proof.
  intros (Ht & Hc & Hmax) (Ht' & Hc' & Hmax').
  destruct (Z.lt_trichotomy t t') as [Hlt|[Heq|Hgt]]; [|exact Heq|].
  - exfalso. apply (Hmax t'); [lia | exact Hc'].
  - exfalso. apply (Hmax' t); [lia | exact Hc].
Qed.

Lemma is_max_with_none rc c n t :
  is_max_with rc c n t -> none_with rc c n -> False.
Proof. intros (Ht & Hc & _) Hnone. exact (Hnone t Ht Hc). Qed.

Lemma best_pair_unique rc n s s' :
  best_pair rc n s -> best_pair rc n s' -> s = s'.
Proof.
  intros [[Hnone ->]|Hmax] [[Hnone' ->]|Hmax']; try reflexivity.
  - exfalso. by eapply is_max_with_none.
  - exfalso. by eapply is_max_with_none.
  - by eapply is_max_with_unique.
Qed.

Lemma highest_run_unique rc i i' :
  highest_run rc i -> highest_run rc i' -> i = i'.
Proof.
  intros (Hi & Hrun & Hmax) (Hi' & Hrun' & Hmax').
  destruct (Z.lt_trichotomy i i') as [Hlt|[Heq|Hgt]]; [|exact Heq|].
  - exfalso. apply (Hmax i'); [lia | exact Hrun'].
  - exfalso. apply (Hmax' i); [lia | exact Hrun].
Qed.

Lemma highest_run_no_run rc i : highest_run rc i -> no_run rc -> False.
Proof. intros (Hi & Hrun & _) Hnone. exact (Hnone i Hi Hrun). Qed.

Lemma hand_case_ext rc sc rc' sc' top e :
  (forall i, rc i = rc' i) -> (forall i, sc i = sc' i) ->
  hand_case rc sc top e -> hand_case rc' sc' top e.
Proof.
  intros Hrc Hsc.
  assert (forall c n, none_with rc c n -> none_with rc' c n) as Hnone
    by (intros c n H r Hr; rewrite <- Hrc; by apply H).
  assert (forall c n t, is_max_with rc c n t -> is_max_with rc' c n t) as Hmax.
  { intros c n t (Ht & Hc & H). split; [exact Ht|]. split; [by rewrite <- Hrc|].
    intros r Hr. rewrite <- Hrc. by apply H. }
  assert (forall n s, best_pair rc n s -> best_pair rc' n s) as Hbest
    by (intros n s [[H ->]|H]; [left | right]; auto).
  assert (no_flush sc -> no_flush sc') as Hflush
    by (intros H s Hs; rewrite <- Hsc; by apply H).
  assert (forall i, run_at rc' i -> run_at rc i) as Hrun
    by (intros i H j Hj; rewrite Hrc; by apply H).
  assert (forall i, run_at rc i -> run_at rc' i) as Hrun'
    by (intros i H j Hj; rewrite <- Hrc; by apply H).
  assert (no_run rc -> no_run rc') as Hnorun
    by (intros H i Hi Hr; apply (H i Hi); by apply Hrun).
  assert (pairs_of rc = pairs_of rc') as Hpairs.
  { unfold pairs_of. do 2 f_equal. apply filter_ext. intros r. by rewrite Hrc. }
  intros Hcase. destruct Hcase.
  - eapply case_flush; [eassumption|]. by rewrite <- Hsc.
  - apply case_four; auto. by rewrite <- Hrc.
  - apply case_full_house; auto.
  - apply case_three; auto.
  - apply case_straight; auto.
    destruct H2 as (Hi & Hr & Hm). split; [exact Hi|]. split; [auto|].
    intros i' Hi' Hr'. apply (Hm i' Hi'). auto.
  - rewrite Hpairs. apply case_pairs; auto.
  - apply case_high; auto.
Qed.

(** What [evaluate_hand] returns, category by category, in terms of the
    histograms and the highest rank of the cards it was given. *)
Lemma evaluate_hand_cases hand community_cards :
  hand_case (rank_count (hand ++ community_cards))
    (suit_count (hand ++ community_cards))
    (highest_rank (hand ++ community_cards))
    (evaluate_hand hand community_cards).
Proof.
  unfold evaluate_hand. set (cards := hand ++ community_cards).
  rewrite <- (top_rank_qsort cards).
  apply (hand_case_ext (rank_count (qsort cards)) (suit_count (qsort cards))).
  - intros i. apply tally_qsort.
  - intros i. apply tally_qsort.
  - apply classify_cases. intros i Hi.
    unfold rank_count in Hi. rewrite tally_qsort in Hi.
    apply tally_pos_elem in Hi as (c & Hc & <-).
    rewrite top_rank_qsort. by apply highest_rank_ge.
Qed.

(** ** The categories, one by one *)

Ltac category_clash :=
  exfalso;
  match goal with
  | Hf : no_flush ?sc, Hs : 5 <= ?sc ?s, Hr : 0 <= ?s < NUM_SUITS |- _ =>
      specialize (Hf s Hr); lia
  | Hn : none_with ?rc ?c NUM_RANKS, Hq : ?rc ?q = ?c |- _ =>
      apply (Hn q); [unfold NUM_RANKS in *; lia | exact Hq]
  | Hn : none_with ?rc ?c ?n, Hm : is_max_with ?rc ?c ?n _ |- _ =>
      exact (is_max_with_none _ _ _ _ Hm Hn)
  | Hr : no_run ?rc, Hh : highest_run ?rc _ |- _ =>
      exact (highest_run_no_run _ _ Hh Hr)
  end.

Ltac by_category hand community_cards :=
  let Hcase := fresh "Hcase" in
  let e := fresh "e" in
  let He := fresh "He" in
  pose proof (evaluate_hand_cases hand community_cards) as Hcase;
  remember (evaluate_hand hand community_cards) as e eqn:He;
  destruct Hcase; simpl in *.

Section Categories.

Context (hand community_cards : list Card).

Local Abbreviation cards := (hand ++ community_cards).
Local Abbreviation rc := (rank_count (hand ++ community_cards)).
Local Abbreviation sc := (suit_count (hand ++ community_cards)).
Local Abbreviation result := (evaluate_hand hand community_cards).

(** X16.  A flush is reported exactly when one of the four suits occurs at
    least five times; it takes precedence over every other category. *)
Theorem flush_exactly :
  combination_level result = 6 <->
  exists s, 0 <= s < NUM_SUITS /\ 5 <= sc s.
Proof.
  by_category hand community_cards; split;
    try (intros Hl; first [lia | destruct (2 <=? _); lia]);
    try (intros (s' & Hs' & Hcount); category_clash).
  intros _. by exists s.
Qed.

(** X17.  A full house: with no flush and no rank occurring four times, a rank
    occurring three times together with a rank occurring twice yields level
    7 with the highest such triple rank as [highest_card] and the highest
    paired rank as [second_highest_card]; and level 7 is reported in no
    other situation. *)
Theorem full_house_exactly :
  (forall t p,
     no_flush sc -> none_with rc 4 NUM_RANKS ->
     is_max_with rc 3 NUM_RANKS t -> is_max_with rc 2 NUM_RANKS p ->
     result = mkEval 7 t p) /\
  (combination_level result = 7 ->
   no_flush sc /\ none_with rc 4 NUM_RANKS /\
   is_max_with rc 3 NUM_RANKS (highest_card result) /\
   is_max_with rc 2 NUM_RANKS (second_highest_card result)).
Proof.
  by_category hand community_cards; split;
    try (intros Hl; first [lia | destruct (2 <=? _); lia]);
    try (intros t' p' Hf' H4' H3' H2'; category_clash).
  - intros t' p' _ _ H3' H2'. f_equal; eapply is_max_with_unique; eassumption.
  - intros _. repeat (split; [assumption|]); first [assumption | reflexivity].
Qed.

(** X18.  Three of a kind: with no flush, no rank occurring four times and no
    rank occurring exactly twice, a rank occurring three times yields level
    3 with the highest such rank and no secondary rank; and level 3 is
    reported in no other situation.  Two triples (seven cards) fall here
    too, not under the full house. *)
Theorem three_of_a_kind_exactly :
  (forall t,
     no_flush sc -> none_with rc 4 NUM_RANKS ->
     is_max_with rc 3 NUM_RANKS t -> none_with rc 2 NUM_RANKS ->
     result = mkEval 3 t (-1)) /\
  (combination_level result = 3 ->
   no_flush sc /\ none_with rc 4 NUM_RANKS /\
   is_max_with rc 3 NUM_RANKS (highest_card result) /\
   none_with rc 2 NUM_RANKS /\ second_highest_card result = -1).
Proof.
  by_category hand community_cards; split;
    try (intros Hl; first [lia | destruct (2 <=? _); lia]);
    try (intros t' Hf' H4' H3' H2'; category_clash).
  - intros t' _ _ H3' _. f_equal. eapply is_max_with_unique; eassumption.
  - intros _. repeat (split; [assumption|]); first [assumption | reflexivity].
Qed.

(** X19.  A straight: with no flush and no rank occurring three or four
    times, five consecutive ranks among 2 .. A all present yield level 4 with
    the top rank of the highest such run as [highest_card]; and level 4 is
    reported in no other situation.  The ace counts high only: A-2-3-4-5 is
    no run. *)
Theorem straight_exactly :
  (forall i,
     no_flush sc -> none_with rc 4 NUM_RANKS -> none_with rc 3 NUM_RANKS ->
     highest_run rc i ->
     combination_level result = 4 /\ highest_card result = i + 4) /\
  (combination_level result = 4 ->
   no_flush sc /\ none_with rc 4 NUM_RANKS /\ none_with rc 3 NUM_RANKS /\
   highest_run rc (highest_card result - 4)).
Proof.
  by_category hand community_cards; split;
    try (intros Hl; first [lia | destruct (2 <=? _); lia]);
    try (intros i' Hf' H4' H3' Hrun'; category_clash).
  - intros i' _ _ _ Hrun'. split; [reflexivity|].
    f_equal. eapply highest_run_unique; eassumption.
  - intros _. replace (i + 4 - 4) with i by lia.
    repeat (split; [assumption|]); assumption.
Qed.

(** X20.  Pairs: with no flush, no rank occurring three or four times and no
    run of five ranks, the level is 2 when at least two ranks occur exactly
    twice, 1 when exactly one does and 0 when none does; levels 2, 1 and 0
    are reported in no other situation. *)
Theorem pairs_exactly :
  (no_flush sc -> none_with rc 4 NUM_RANKS -> none_with rc 3 NUM_RANKS ->
   no_run rc ->
   combination_level result
   = if 2 <=? pairs_of rc then 2 else if pairs_of rc =? 1 then 1 else 0) /\
  (0 <= combination_level result <= 2 ->
   no_flush sc /\ none_with rc 4 NUM_RANKS /\ none_with rc 3 NUM_RANKS /\
   no_run rc).
Proof.
  by_category hand community_cards; split;
    try (intros Hl; lia);
    try (intros Hf' H4' H3' Hrun'; category_clash).
  - intros _ _ _ _.
    destruct H3 as (Hp & Hrc & _). pose proof (pairs_of_pos _ _ Hp Hrc).
    destruct (Z.leb_spec 2 (pairs_of rc)); [reflexivity|].
    destruct (Z.eqb_spec (pairs_of rc) 1); [reflexivity | lia].
  - intros _. repeat (split; [assumption|]); first [assumption | reflexivity].
  - intros _ _ _ _. by rewrite pairs_of_none.
  - intros _. repeat (split; [assumption|]); first [assumption | reflexivity].
Qed.

(** X21.  High card: with no flush, no rank occurring twice or more and no
    run, the result is level 0 with the highest rank among the cards and no
    secondary rank; and level 0 is reported in no other situation. *)
Theorem high_card_exactly :
  (no_flush sc -> none_with rc 4 NUM_RANKS -> none_with rc 3 NUM_RANKS ->
   no_run rc -> none_with rc 2 NUM_RANKS ->
   result = mkEval 0 (highest_rank cards) (-1)) /\
  (combination_level result = 0 ->
   no_flush sc /\ none_with rc 4 NUM_RANKS /\ none_with rc 3 NUM_RANKS /\
   no_run rc /\ none_with rc 2 NUM_RANKS /\
   result = mkEval 0 (highest_rank cards) (-1)).
Proof.
  by_category hand community_cards; split;
    try (intros Hl; first [lia | destruct (2 <=? _); lia]);
    try (intros Hf' H4' H3' Hrun' H2'; category_clash).
  - reflexivity.
  - intros _. repeat (split; [assumption|]); first [assumption | reflexivity].
Qed.

End Categories.

(** Each category is inhabited: the theorems above applied to one hand of
    each kind. *)

Lemma flush_exactly_witness :
  combination_level
    (evaluate_hand [mkCard 12 3; mkCard 11 3]
       [mkCard 10 3; mkCard 9 3; mkCard 8 3; mkCard 0 0; mkCard 1 1]) = 6.
Proof.
  apply flush_exactly. exists 3. split; [unfold NUM_SUITS; lia|].
  vm_compute. discriminate.
Defined.

Lemma full_house_exactly_witness :
  is_max_with
    (rank_count ([mkCard 11 0; mkCard 11 1]
                 ++ [mkCard 11 2; mkCard 5 3; mkCard 5 0; mkCard 2 1])) 3 NUM_RANKS 11 /\
  is_max_with
    (rank_count ([mkCard 11 0; mkCard 11 1]
                 ++ [mkCard 11 2; mkCard 5 3; mkCard 5 0; mkCard 2 1])) 2 NUM_RANKS 5 /\
  evaluate_hand [mkCard 11 0; mkCard 11 1]
    [mkCard 11 2; mkCard 5 3; mkCard 5 0; mkCard 2 1] = mkEval 7 11 5.
Proof.
  destruct (full_house_exactly [mkCard 11 0; mkCard 11 1]
              [mkCard 11 2; mkCard 5 3; mkCard 5 0; mkCard 2 1]) as [Hthen Honly].
  destruct Honly as (Hflush & Hfour & Hthree & Hpair); [reflexivity|].
  split; [exact Hthree|]. split; [exact Hpair|].
  exact (Hthen 11 5 Hflush Hfour Hthree Hpair).
Defined.

Lemma three_of_a_kind_exactly_witness :
  is_max_with
    (rank_count ([mkCard 3 0; mkCard 7 1]
                 ++ [mkCard 3 2; mkCard 7 3; mkCard 3 3; mkCard 7 0; mkCard 12 1]))
    3 NUM_RANKS 7 /\
  evaluate_hand [mkCard 3 0; mkCard 7 1]
    [mkCard 3 2; mkCard 7 3; mkCard 3 3; mkCard 7 0; mkCard 12 1]
  = mkEval 3 7 (-1).
Proof.
  destruct (three_of_a_kind_exactly [mkCard 3 0; mkCard 7 1]
              [mkCard 3 2; mkCard 7 3; mkCard 3 3; mkCard 7 0; mkCard 12 1])
    as [Hthen Honly].
  destruct Honly as (Hflush & Hfour & Hthree & Hpair & _); [reflexivity|].
  split; [exact Hthree|].
  exact (Hthen 7 Hflush Hfour Hthree Hpair).
Defined.

Lemma straight_exactly_witness :
  highest_run
    (rank_count ([mkCard 3 0; mkCard 4 1]
                 ++ [mkCard 5 2; mkCard 6 3; mkCard 7 3; mkCard 8 0; mkCard 12 1])) 4 /\
  combination_level
    (evaluate_hand [mkCard 3 0; mkCard 4 1]
       [mkCard 5 2; mkCard 6 3; mkCard 7 3; mkCard 8 0; mkCard 12 1]) = 4 /\
  highest_card
    (evaluate_hand [mkCard 3 0; mkCard 4 1]
       [mkCard 5 2; mkCard 6 3; mkCard 7 3; mkCard 8 0; mkCard 12 1]) = 4 + 4.
Proof.
  destruct (straight_exactly [mkCard 3 0; mkCard 4 1]
              [mkCard 5 2; mkCard 6 3; mkCard 7 3; mkCard 8 0; mkCard 12 1])
    as [Hthen Honly].
  destruct Honly as (Hflush & Hfour & Hthree & Hrun); [reflexivity|].
  split; [exact Hrun|].
  exact (Hthen 4 Hflush Hfour Hthree Hrun).
Defined.

Lemma pairs_exactly_witness :
  no_run
    (rank_count ([mkCard 3 0; mkCard 3 1]
                 ++ [mkCard 5 2; mkCard 5 3; mkCard 9 3; mkCard 9 0; mkCard 12 1])) /\
  combination_level
    (evaluate_hand [mkCard 3 0; mkCard 3 1]
       [mkCard 5 2; mkCard 5 3; mkCard 9 3; mkCard 9 0; mkCard 12 1]) = 2.
Proof.
  destruct (pairs_exactly [mkCard 3 0; mkCard 3 1]
              [mkCard 5 2; mkCard 5 3; mkCard 9 3; mkCard 9 0; mkCard 12 1])
    as [Hthen Honly].
  destruct Honly as (Hflush & Hfour & Hthree & Hrun); [vm_compute; split; discriminate|].
  split; [exact Hrun|].
  exact (Hthen Hflush Hfour Hthree Hrun).
Defined.

Lemma high_card_exactly_witness :
  none_with
    (rank_count ([mkCard 3 0; mkCard 10 1]
                 ++ [mkCard 5 2; mkCard 6 3; mkCard 7 3; mkCard 0 0; mkCard 12 1]))
    2 NUM_RANKS /\
  evaluate_hand [mkCard 3 0; mkCard 10 1]
    [mkCard 5 2; mkCard 6 3; mkCard 7 3; mkCard 0 0; mkCard 12 1]
  = mkEval 0 12 (-1).
Proof.
  destruct (high_card_exactly [mkCard 3 0; mkCard 10 1]
              [mkCard 5 2; mkCard 6 3; mkCard 7 3; mkCard 0 0; mkCard 12 1])
    as [Hthen Honly].
  destruct Honly as (Hflush & Hfour & Hthree & Hrun & Hpair & _); [reflexivity|].
  split; [exact Hpair|].
  exact (Hthen Hflush Hfour Hthree Hrun Hpair).
Defined.

(** ** The two rank fields *)

Lemma highest_rank_valid cards :
  cards <> [] -> Forall valid_card cards ->
  0 <= highest_rank cards < NUM_RANKS.
Proof.
  intros Hne Hvalid. destruct (highest_rank_elem cards Hne) as (c & Hc & <-).
  rewrite Forall_forall in Hvalid. by destruct (Hvalid c Hc).
Qed.

Lemma best_pair_range rc n s : n <= NUM_RANKS -> best_pair rc n s -> -1 <= s < NUM_RANKS.
Proof.
  intros Hn [[_ ->]|(Hs & _)]; unfold NUM_RANKS in *; lia.
Qed.

Lemma evaluate_hand_ranges hand community_cards :
  hand ++ community_cards <> [] ->
  Forall valid_card (hand ++ community_cards) ->
  0 <= highest_card (evaluate_hand hand community_cards) < NUM_RANKS /\
  -1 <= second_highest_card (evaluate_hand hand community_cards) < NUM_RANKS.
Proof.
  intros Hne Hvalid. pose proof (highest_rank_valid _ Hne Hvalid) as Htop.
  pose proof (evaluate_hand_cases hand community_cards) as Hcase.
  destruct Hcase; simpl.
  - unfold NUM_RANKS in *. lia.
  - split; [lia|]. eapply best_pair_range; [|eassumption]. lia.
  - destruct H1 as (? & _), H2 as (? & _). lia.
  - destruct H1 as (? & _). unfold NUM_RANKS in *. lia.
  - destruct H2 as (? & _). split; [unfold NUM_RANKS in *; lia|].
    eapply best_pair_range; [|eassumption]. lia.
  - destruct H3 as (? & _). lia.
  - unfold NUM_RANKS in *. lia.
Qed.

(** X22.  On a non-empty set of cards of the 52-card domain, [highest_card]
    is always a rank (0 .. 12) and [second_highest_card] is a rank or -1. *)
Theorem evaluate_hand_fields_are_ranks hand community_cards :
  hand ++ community_cards <> [] ->
  Forall valid_card (hand ++ community_cards) ->
  0 <= highest_card (evaluate_hand hand community_cards) < NUM_RANKS /\
  -1 <= second_highest_card (evaluate_hand hand community_cards) < NUM_RANKS.
Proof. apply evaluate_hand_ranges. Qed.

Lemma evaluate_hand_fields_are_ranks_witness :
  0 <= highest_card
         (evaluate_hand [mkCard 11 2; mkCard 0 1] [mkCard 0 0; mkCard 3 3])
    < NUM_RANKS /\
  -1 <= second_highest_card
          (evaluate_hand [mkCard 11 2; mkCard 0 1] [mkCard 0 0; mkCard 3 3])
    < NUM_RANKS.
Proof.
  apply evaluate_hand_fields_are_ranks.
  - discriminate.
  - apply (bool_decide_unpack _). vm_compute. exact I.
Defined.

(** * When [is_hand_better] needs no fallback *)

Lemma evaluate_reads_in_bounds community_size :
  forallb (in_bounds community_size) (evaluate_reads community_size) = true.
Proof.
  apply forallb_forall. intros a Ha. apply list_elem_of_In in Ha.
  unfold evaluate_reads in Ha. rewrite !elem_of_app, !list_elem_of_fmap in Ha.
  destruct Ha as [(i & -> & Hi)|[(i & -> & Hi)|[(i & -> & Hi)|(i & -> & Hi)]]];
    apply elem_of_seqZ in Hi; simpl; unfold HAND_SIZE in *;
    destruct (Z.leb_spec 0 i); try lia;
    match goal with |- context [?a <? ?b] => destruct (Z.ltb_spec a b) end;
    try lia; reflexivity.
Qed.

(** X23.  For hands and community cards of the 52-card domain, unless the two
    evaluations agree on level and highest card and both lack a secondary
    rank, [is_hand_better] decides from the evaluations alone: it returns
    what the three-level test of [find_winning_opponent] returns for the
    same two evaluations, and it has read only cells inside the two hands
    and the community array. *)
Theorem is_hand_better_decided_by_evaluation
    hand1 hand2 community_cards community_size :
  let community := cells community_cards community_size in
  let eval1 := evaluate_hand (cells hand1 HAND_SIZE) community in
  let eval2 := evaluate_hand (cells hand2 HAND_SIZE) community in
  Forall valid_card (cells hand1 HAND_SIZE ++ community) ->
  Forall valid_card (cells hand2 HAND_SIZE ++ community) ->
  combination_level eval1 <> combination_level eval2 \/
  highest_card eval1 <> highest_card eval2 \/
  second_highest_card eval1 <> -1 \/ second_highest_card eval2 <> -1 ->
  is_hand_better hand1 hand2 community_cards community_size
  = (beats eval1 eval2, evaluate_reads community_size) /\
  forallb (in_bounds community_size)
    (is_hand_better hand1 hand2 community_cards community_size).2 = true.
Proof.
  intros community eval1 eval2 Hvalid1 Hvalid2 Hdiffer.
  assert (-1 <= second_highest_card eval1) as Hs1.
  { apply evaluate_hand_ranges; [|exact Hvalid1].
    unfold cells, HAND_SIZE. discriminate. }
  assert (-1 <= second_highest_card eval2) as Hs2.
  { apply evaluate_hand_ranges; [|exact Hvalid2].
    unfold cells, HAND_SIZE. discriminate. }
  assert (is_hand_better hand1 hand2 community_cards community_size
          = (beats eval1 eval2, evaluate_reads community_size)) as Hresult.
  { unfold is_hand_better, beats. cbv zeta. fold community. fold eval1. fold eval2.
    clearbody eval1 eval2. rewrite !Z.gtb_ltb.
    repeat match goal with
           | |- context [?a <? ?b] => destruct (Z.ltb_spec a b); simpl; try lia
           | |- context [?a =? ?b] => destruct (Z.eqb_spec a b); simpl; try lia
           end; try reflexivity. }
  split; [exact Hresult|]. rewrite Hresult. apply evaluate_reads_in_bounds.
Qed.

Lemma is_hand_better_decided_by_evaluation_witness :
  is_hand_better
    (array_of [mkCard 11 2; mkCard 11 1] (mkCard 0 0))
    (array_of [mkCard 12 2; mkCard 12 1] (mkCard 0 0))
    (array_of [mkCard 0 3; mkCard 3 0; mkCard 7 1] (mkCard 0 0)) 3
  = (beats
       (evaluate_hand
          (cells (array_of [mkCard 11 2; mkCard 11 1] (mkCard 0 0)) HAND_SIZE)
          (cells (array_of [mkCard 0 3; mkCard 3 0; mkCard 7 1] (mkCard 0 0)) 3))
       (evaluate_hand
          (cells (array_of [mkCard 12 2; mkCard 12 1] (mkCard 0 0)) HAND_SIZE)
          (cells (array_of [mkCard 0 3; mkCard 3 0; mkCard 7 1] (mkCard 0 0)) 3)),
     evaluate_reads 3) /\
  forallb (in_bounds 3)
    (is_hand_better
       (array_of [mkCard 11 2; mkCard 11 1] (mkCard 0 0))
       (array_of [mkCard 12 2; mkCard 12 1] (mkCard 0 0))
       (array_of [mkCard 0 3; mkCard 3 0; mkCard 7 1] (mkCard 0 0)) 3).2 = true.
Proof.
  apply (is_hand_better_decided_by_evaluation
           (array_of [mkCard 11 2; mkCard 11 1] (mkCard 0 0))
           (array_of [mkCard 12 2; mkCard 12 1] (mkCard 0 0))
           (array_of [mkCard 0 3; mkCard 3 0; mkCard 7 1] (mkCard 0 0)) 3).
  - apply (bool_decide_unpack _). vm_compute. exact I.
  - apply (bool_decide_unpack _). vm_compute. exact I.
  - right. left. vm_compute. discriminate.
Defined.

(** * The index [find_winning_opponent] returns *)

Lemma find_winning_opponent_range player_hand opponent_hands community_cards :
  -1 <= find_winning_opponent player_hand opponent_hands community_cards
     < Z.of_nat (length opponent_hands).
Proof.
  unfold find_winning_opponent. cbv zeta.
  destruct (scan_opponents_last (evaluate_hand player_hand community_cards)
              community_cards opponent_hands 0 (true, -1))
    as [[-> _]|(before & hand & after & -> & _ & _ & ->)].
  - lia.
  - rewrite length_app. simpl. lia.
Qed.

(** X24.  [find_winning_opponent] returns -1 or the index of one of the
    opponents it was given, never an index outside the array. *)
Theorem find_winning_opponent_index_range
    player_hand opponent_hands community_cards :
  -1 <= find_winning_opponent player_hand opponent_hands community_cards
     < Z.of_nat (length opponent_hands).
Proof. apply find_winning_opponent_range. Qed.

(** * [print_card] and [main] *)

Lemma print_card_valid card :
  is_Some (print_card card) <-> valid_card card.
Proof.
  unfold print_card, valid_card. split.
  - intros [text Htext].
    destruct (read ranks (rank card)) as [r|] eqn:Hr; [|discriminate].
    cbn [mbind option_bind] in Htext.
    destruct (read suits (suit card)) as [s|] eqn:Hs; [|discriminate].
    apply read_Some in Hr as [Hr _]. apply read_Some in Hs as [Hs _].
    simpl in Hr, Hs. unfold NUM_RANKS, NUM_SUITS. lia.
  - intros [Hr Hs].
    destruct (read_in_range ranks (rank card)) as (r & -> & _);
      [simpl; unfold NUM_RANKS in Hr; lia|].
    destruct (read_in_range suits (suit card)) as (s & -> & _);
      [simpl; unfold NUM_SUITS in Hs; lia|].
    cbn [mbind option_bind]. by eexists.
Qed.

(** X25.  [print_card] reads inside the [ranks] and [suits] tables exactly
    for the cards of the 52-card domain; any other rank or suit indexes a
    table out of bounds. *)
Theorem print_card_in_bounds card :
  is_Some (print_card card) <-> valid_card card.
Proof. apply print_card_valid. Qed.

Lemma print_cards_ok cards :
  Forall valid_card cards -> is_Some (mapM print_card cards).
Proof.
  intros Hvalid. apply mapM_is_Some. eapply Forall_impl; [exact Hvalid|].
  intros c Hc. by apply print_card_valid.
Qed.

(** ** The cards [main] deals *)

Lemma deal_players_slice deck current_card n :
  0 <= current_card ->
  current_card + 2 * Z.of_nat n <= Z.of_nat (length deck) ->
  exists hands,
    deal_players deck current_card n
    = Some (hands, current_card + 2 * Z.of_nat n) /\
    length hands = n /\ Forall (fun hand => length hand = 2%nat) hands /\
    concat hands = take (2 * n) (drop (Z.to_nat current_card) deck).
Proof.
  revert current_card. induction n as [|n IH]; intros cur Hcur Hend.
  - exists []. simpl. split; [do 2 f_equal; lia|]. by repeat split.
  - cbn [deal_players]. unfold deal_cards, HAND_SIZE.
    rewrite deal_from_slice by lia. cbn [mbind option_bind].
    destruct (IH (cur + Z.of_nat (Z.to_nat 2))) as (hands & -> & Hlen & Hall & Hcat);
      [lia | lia |].
    cbn [mbind option_bind].
    exists (take (Z.to_nat 2) (drop (Z.to_nat cur) deck) :: hands).
    split; [do 2 f_equal; lia|]. split; [simpl; lia|]. split.
    + constructor; [|exact Hall]. rewrite length_take, length_drop. lia.
    + cbn [concat]. rewrite Hcat.
      replace (Z.to_nat (cur + Z.of_nat (Z.to_nat 2)))
        with (Z.to_nat cur + 2)%nat by lia.
      rewrite <- drop_drop. change (Z.to_nat 2) with 2%nat.
      rewrite take_take_drop. f_equal. lia.
Qed.

(** The player's two cards and the first [k] community cards, as [main]
    deals them, are cells of the deck at distinct positions. *)
Lemma hole_and_board_sublist (deck : list Card) (n k : nat) :
  (1 <= n)%nat ->
  take 2 deck ++ take k (drop (2 * n) deck) `sublist_of` deck.
Proof.
  intros Hn. rewrite <- (take_drop 2 deck) at 3.
  apply sublist_app; [reflexivity|].
  etrans; [apply sublist_take|].
  replace (2 * n)%nat with (2 + (2 * n - 2))%nat by lia.
  rewrite <- drop_drop. apply sublist_drop.
Qed.

(** ** A run of [main] *)

Ltac output_cases :=
  repeat match goal with
         | H : _ ∈ [] |- _ => by apply elem_of_nil in H
         | H : _ ∈ _ ++ _ |- _ => apply elem_of_app in H as [H|H]
         | H : _ ∈ _ :: _ |- _ =>
             apply elem_of_cons in H as [H|H]; try discriminate H
         | H : _ \/ _ |- _ => destruct H as [H|H]
         end;
  try discriminate; simplify_eq; repeat split; try assumption; try lia.

Lemma ask_action_again a stdin :
  exists folds a' stdin',
    ask_action (Some a) stdin = Some (folds, Some a', stdin').
Proof.
  unfold ask_action. destruct (scan_char stdin) as [[b rest]|];
    cbn [mbind option_bind]; by eexists _, _, _.
Qed.

Lemma option_bind_Some_l {A B} (f : A -> option B) (x : A) :
  Some x ≫= f = f x.
Proof. reflexivity. Qed.

(** One step of a run: the call just rewritten to [Some _] returns and the
    run goes on with its result. *)
Ltac returns := rewrite option_bind_Some_l; cbn beta iota.

(** The equations of the calls are not needed to read the output. *)
Ltac forget_calls :=
  repeat match goal with H : _ = Some _ |- _ => clear H end.

Section MainProperties.

Context (rand : nat -> Z).

Hypothesis rand_nonneg : forall n, 0 <= rand n.

Lemma win_probability_ok player_hand community_cards num_players calls :
  length player_hand = 2%nat -> (length community_cards <= 5)%nat ->
  Forall valid_card (player_hand ++ community_cards) ->
  2 <= num_players <= 6 ->
  exists percent calls',
    win_probability rand player_hand community_cards num_players calls
    = Some (percent, calls') /\ 0 <= percent <= 100.
Proof.
  intros Hhand Hcommunity Hcards Hplayers.
  destruct (simulate_ok rand rand_nonneg player_hand community_cards num_players
              (Z.to_nat MONTE_CARLO_SIMULATIONS) 0 0 calls)
    as (wins & losses & calls' & Hrun & Hw & Hl & Hsum); try assumption.
  rewrite Z2Nat.id in Hsum by (unfold MONTE_CARLO_SIMULATIONS; lia).
  unfold win_probability, calculate_win_probability, counters.
  rewrite Hrun. cbn [mbind option_bind].
  replace (wins + losses + 0) with MONTE_CARLO_SIMULATIONS by lia.
  unfold MONTE_CARLO_SIMULATIONS in *.
  change (10000 =? 0) with false. cbn iota. cbn [mbind option_bind].
  eexists _, _. split; [reflexivity|].
  rewrite Z.quot_div_nonneg by lia. split.
  - apply Z.div_pos; lia.
  - apply Z.div_le_upper_bound; lia.
Qed.

(** The calls every run with a valid player count starts with: the deck is
    shuffled, the hands are dealt from its first cells, the player's hand is
    printed and the preflop probability computed. *)
Lemma main_deal num_players :
  2 <= num_players <= 6 ->
  exists deck calls player others text percent calls',
    shuffle_deck rand initialize_deck 0 = Some (deck, calls) /\
    deal_players deck 0 (Z.to_nat num_players)
    = Some (player :: others, 0 + 2 * Z.of_nat (Z.to_nat num_players)) /\
    mapM print_card player = Some text /\
    win_probability rand player [] num_players calls = Some (percent, calls') /\
    length deck = 52%nat /\ NoDup deck /\ Forall valid_card deck /\
    player = take 2 deck /\
    length (player :: others) = Z.to_nat num_players.
Proof.
  intros Hplayers.
  destruct (shuffle_deck_ok rand rand_nonneg 0)
    as (deck & calls0 & Hshuffle & Hlen & _).
  destruct (shuffled_deck_domain rand 0 deck calls0 Hshuffle)
    as (Hnodup & _ & Hdomain).
  assert (Forall valid_card deck) as Hvalid
    by (apply Forall_forall; intros c Hc; by apply Hdomain).
  assert (length deck = 52%nat) as Hlen52 by exact Hlen.
  destruct (deal_players_slice deck 0 (Z.to_nat num_players))
    as (hands & Hdeal & Hhands & Hall & Hcat); [lia | lia |].
  destruct hands as [|player others]; [simpl in Hhands; lia|].
  apply Forall_cons in Hall as [Hplayer Hothers].
  assert (player = take 2 deck) as Hplayer_eq.
  { cbn [concat] in Hcat. change (Z.to_nat 0) with 0%nat in Hcat.
    rewrite drop_0 in Hcat.
    rewrite <- (take_app_length' player (concat others) 2)
      by (symmetry; exact Hplayer).
    rewrite Hcat, take_take. f_equal. lia. }
  assert (Forall valid_card player) as Hvalid_player
    by (rewrite Hplayer_eq; by apply Forall_take).
  destruct (print_cards_ok player Hvalid_player) as [text Hprint].
  destruct (win_probability_ok player [] num_players calls0)
    as (percent & calls1 & Hwin & _);
    [exact Hplayer | simpl; lia | by rewrite app_nil_r | exact Hplayers |].
  by exists deck, calls0, player, others, text, percent, calls1.
Qed.

(** A run of [main] with a valid player count and at least one answer on
    standard input. *)
Lemma main_run num_players stdin :
  2 <= num_players <= 6 -> is_Some (scan_char stdin) ->
  exists out,
    main rand (Some num_players) stdin = Some (0, out) /\
    (forall number, BotWins number ∈ out -> 2 <= number <= num_players) /\
    (forall player community,
       YourHand player ∈ out ->
       Flop community ∈ out \/ Turn community ∈ out \/ River community ∈ out ->
       length player = 2%nat /\ NoDup (player ++ community) /\
       Forall valid_card (player ++ community)) /\
    (forall community, Flop community ∈ out -> length community = 3%nat) /\
    (forall community, Turn community ∈ out -> length community = 4%nat) /\
    (forall community, River community ∈ out -> length community = 5%nat).
Proof.
  intros Hplayers [[a1 stdin1] Hscan].
  destruct (main_deal num_players Hplayers)
    as (deck & calls0 & player & others & text0 & p0 & calls1 & Hshuffle
        & Hdeal & Hprint0 & Hwin0 & Hlen52 & Hnodup & Hvalid & Hplayer_eq
        & Hhands).
  set (n := Z.to_nat num_players) in *.
  assert (length player = 2%nat) as Hplayer
    by (rewrite Hplayer_eq, length_take; lia).
  set (flop := take 3 (drop (2 * n) deck)).
  set (turn := take 1 (drop (2 * n + 3) deck)).
  set (river := take 1 (drop (2 * n + 4) deck)).
  assert (flop ++ turn = take 4 (drop (2 * n) deck)) as Hturn.
  { unfold flop, turn. rewrite <- drop_drop. apply take_take_drop. }
  assert ((flop ++ turn) ++ river = take 5 (drop (2 * n) deck)) as Hriver.
  { rewrite Hturn. unfold river. rewrite <- drop_drop. apply take_take_drop. }
  assert (forall k, (k <= 5)%nat ->
            length (take k (drop (2 * n) deck)) = k /\
            NoDup (player ++ take k (drop (2 * n) deck)) /\
            Forall valid_card (player ++ take k (drop (2 * n) deck))) as Hboard.
  { intros k Hk.
    assert (player ++ take k (drop (2 * n) deck) `sublist_of` deck) as Hsub
      by (rewrite Hplayer_eq; apply hole_and_board_sublist; lia).
    split; [rewrite length_take, length_drop; lia|].
    split; [by eapply sublist_NoDup|].
    apply Forall_forall. intros c Hc.
    apply (proj1 (Forall_forall _ _) Hvalid). by eapply elem_of_sublist. }
  destruct (Hboard 3%nat) as (Hl3 & Hn3 & Hv3); [lia|].
  fold flop in Hl3, Hn3, Hv3.
  destruct (Hboard 4%nat) as (Hl4 & Hn4 & Hv4); [lia|].
  rewrite <- Hturn in Hl4, Hn4, Hv4.
  destruct (Hboard 5%nat) as (Hl5 & Hn5 & Hv5); [lia|].
  rewrite <- Hriver in Hl5, Hn5, Hv5.
  clear Hboard.
  assert (deal_cards deck (0 + 2 * Z.of_nat n) FLOP_SIZE
          = Some (flop, 2 * Z.of_nat n + 3)) as Hdeal3.
  { unfold deal_cards, FLOP_SIZE. rewrite deal_from_slice by lia.
    replace (Z.to_nat (0 + 2 * Z.of_nat n)) with (2 * n)%nat by lia.
    unfold flop. do 2 f_equal; lia. }
  assert (deal_cards deck (2 * Z.of_nat n + 3) TURN_RIVER_SIZE
          = Some (turn, 2 * Z.of_nat n + 4)) as Hdeal4.
  { unfold deal_cards, TURN_RIVER_SIZE. rewrite deal_from_slice by lia.
    replace (Z.to_nat (2 * Z.of_nat n + 3)) with (2 * n + 3)%nat by lia.
    unfold turn. do 2 f_equal; lia. }
  assert (deal_cards deck (2 * Z.of_nat n + 4) TURN_RIVER_SIZE
          = Some (river, 2 * Z.of_nat n + 5)) as Hdeal5.
  { unfold deal_cards, TURN_RIVER_SIZE. rewrite deal_from_slice by lia.
    replace (Z.to_nat (2 * Z.of_nat n + 4)) with (2 * n + 4)%nat by lia.
    unfold river. do 2 f_equal; lia. }
  destruct (print_cards_ok flop) as [text3 Hprint3];
    [by apply Forall_app in Hv3 as [_ ?]|].
  destruct (print_cards_ok (flop ++ turn)) as [text4 Hprint4];
    [by apply Forall_app in Hv4 as [_ ?]|].
  destruct (print_cards_ok ((flop ++ turn) ++ river)) as [text5 Hprint5];
    [by apply Forall_app in Hv5 as [_ ?]|].
  destruct (win_probability_ok player flop num_players calls1)
    as (p3 & calls2 & Hwin3 & _); [exact Hplayer | lia | exact Hv3 | lia |].
  destruct (win_probability_ok player (flop ++ turn) num_players calls2)
    as (p4 & calls3 & Hwin4 & _); [exact Hplayer | lia | exact Hv4 | lia |].
  destruct (win_probability_ok player ((flop ++ turn) ++ river) num_players
              calls3)
    as (p5 & calls4 & Hwin5 & _); [exact Hplayer | lia | exact Hv5 | lia |].
  pose proof (find_winning_opponent_range player others
                ((flop ++ turn) ++ river)) as Hwinner.
  simpl in Hhands.
  unfold main. cbv zeta.
  destruct (Z.ltb_spec num_players 2); [lia|].
  rewrite Z.gtb_ltb. destruct (Z.ltb_spec 6 num_players); [lia|].
  cbn beta iota delta [orb].
  rewrite Hshuffle. returns. fold n. rewrite Hdeal. returns.
  change ((player :: others) !! 0%nat) with (Some player). returns.
  rewrite Hprint0. returns. rewrite Hwin0. returns.
  assert (ask_action None stdin
          = Some (Ascii.eqb a1 "F"%char || Ascii.eqb a1 "f"%char, Some a1, stdin1))
    as -> by (unfold ask_action; rewrite Hscan; reflexivity).
  returns.
  destruct (Ascii.eqb a1 "F" || Ascii.eqb a1 "f"); cbn beta iota.
  { forget_calls. eexists. split; [reflexivity|].
    repeat split; intros; output_cases. }
  rewrite Hdeal3. returns. rewrite Hprint3. returns.
  destruct (ask_action_again a1 (clear_buffer stdin1).2)
    as (f2 & a2 & stdin2 & ->).
  returns. destruct f2; cbn beta iota.
  { forget_calls. eexists. split; [reflexivity|].
    repeat split; intros; output_cases. }
  rewrite Hwin3. returns.
  destruct (ask_action_again a2 (clear_buffer stdin2).2)
    as (f3 & a3 & stdin3 & ->).
  returns. destruct f3; cbn beta iota.
  { forget_calls. eexists. split; [reflexivity|].
    repeat split; intros; output_cases. }
  rewrite Hdeal4. returns. rewrite Hprint4. returns. rewrite Hwin4. returns.
  destruct (ask_action_again a3 (clear_buffer stdin3).2)
    as (f4 & a4 & stdin4 & ->).
  returns. destruct f4; cbn beta iota.
  { forget_calls. eexists. split; [reflexivity|].
    repeat split; intros; output_cases. }
  rewrite Hdeal5. returns. rewrite Hprint5. returns. rewrite Hwin5. returns.
  change (drop 1 (player :: others)) with others.
  forget_calls.
  set (winner := find_winning_opponent player others ((flop ++ turn) ++ river))
    in *.
  clearbody winner.
  eexists. split; [reflexivity|].
  destruct (Z.eqb_spec winner (-1)); repeat split; intros; output_cases.
Qed.

(** A run of [main] with a valid player count and no answer on standard
    input. *)
Lemma main_unread_action num_players stdin :
  2 <= num_players <= 6 -> scan_char stdin = None ->
  main rand (Some num_players) stdin = None.
Proof.
  intros Hplayers Hstdin.
  destruct (main_deal num_players Hplayers)
    as (deck & calls0 & player & others & text0 & p0 & calls1 & Hshuffle
        & Hdeal & Hprint0 & Hwin0 & _).
  unfold main. cbv zeta.
  destruct (Z.ltb_spec num_players 2); [lia|].
  rewrite Z.gtb_ltb. destruct (Z.ltb_spec 6 num_players); [lia|].
  cbn beta iota delta [orb].
  rewrite Hshuffle. returns. rewrite Hdeal. returns.
  change ((player :: others) !! 0%nat) with (Some player). returns.
  rewrite Hprint0. returns. rewrite Hwin0. returns.
  assert (ask_action None stdin = None) as ->
    by (unfold ask_action; rewrite Hstdin; reflexivity).
  reflexivity.
Qed.

End MainProperties.

Section MainTheorems.

Context (rand : nat -> Z).

Hypothesis rand_nonneg : forall n, 0 <= rand n.



(** X28.  At the showdown [main] announces the player or a bot whose number
    is between 2 and the number of players. *)
Theorem main_announces_a_seated_bot num_players stdin :
  2 <= num_players <= 6 -> is_Some (scan_char stdin) ->
  exists out,
    main rand (Some num_players) stdin = Some (0, out) /\
    forall number, BotWins number ∈ out -> 2 <= number <= num_players.
Proof.
  intros Hplayers Hstdin.
  destruct (main_run rand rand_nonneg num_players stdin Hplayers Hstdin)
    as (out & Hrun & Hbot & _).
  by exists out.
Qed.

(** X29.  When the input ends before any action is typed at the first prompt,
    [main] goes on to test [action], which was never assigned: what it does
    next is not determined by the program. *)
Theorem main_tests_unread_action num_players stdin :
  2 <= num_players <= 6 -> scan_char stdin = None ->
  main rand (Some num_players) stdin = None.
Proof. exact (main_unread_action rand rand_nonneg num_players stdin). Qed.

End MainTheorems.



Lemma main_announces_a_seated_bot_witness :
  exists out,
    main (fun _ => 0) (Some 3) ["C"%char] = Some (0, out) /\
    forall number, BotWins number ∈ out -> 2 <= number <= 3.
Proof.
  apply (main_announces_a_seated_bot (fun _ => 0));
    [intros n; lia | lia | by eexists].
Defined.

Lemma main_tests_unread_action_witness :
  main (fun _ => 0) (Some 2) [newline] = None.
Proof.
  apply (main_tests_unread_action (fun _ => 0));
    [intros n; lia | lia | reflexivity].
Defined.

(** ** clear_buffer *)

(** X30.  [clear_buffer] discards the rest of the current line, the newline
    included, and returns the newline; on input without a newline it discards
    everything and returns [EOF]. *)
Theorem clear_buffer_discards_the_line line rest :
  newline ∉ line ->
  clear_buffer (line ++ newline :: rest) = (Some newline, rest) /\
  clear_buffer line = (None, []).
Proof.
  induction line as [|c line IH]; intros Hline.
  - split; reflexivity.
  - apply not_elem_of_cons in Hline as [Hc Hline].
    destruct (IH Hline) as [IH1 IH2]. cbn [clear_buffer app].
    destruct (Ascii.eqb_spec c newline) as [->|_]; [done|]. by split.
Qed.

Lemma clear_buffer_discards_the_line_witness :
  clear_buffer (["x"%char; "y"%char] ++ newline :: ["F"%char])
  = (Some newline, ["F"%char]) /\
  clear_buffer ["x"%char; "y"%char] = (None, []).
Proof.
  apply clear_buffer_discards_the_line.
  intros Hin. apply elem_of_cons in Hin as [Heq|Hin]; [discriminate|].
  apply elem_of_cons in Hin as [Heq|Hin]; [discriminate|].
  by apply elem_of_nil in Hin.
Defined.
